(** * Mortgage payment calculator: [calculateMortgage]

    A shallow embedding of [src/utils/mortgageCalculator.ts] and
    [src/types/mortgage.ts], and the properties of the payment breakdown.

    ** Two readings of [number]

    Every field of the TypeScript interfaces is a [number], a binary64
    floating-point number.  The program is read twice.

    [Binary64.calculateMortgage] is the program on binary64 numbers, the
    primitive floats of the library: [+], [-], [*] and [/] are the IEEE 754
    operations, rounded to the nearest number, with signed zeros, the
    infinities and NaN.  [Math.pow] follows the case list of the language
    standard.  Where the standard leaves the result to the implementation
    (an "implementation-approximated" value) the model takes it from a
    parameter [approx], except at the base [1], where the power is [1]; what
    is proved holds for every [approx].  What the results are as numbers
    (when the divisor is zero, what is NaN or infinite, what is rounded) is
    stated on this reading.

    [calculateMortgage] is the program on exact reals and the three special
    values [+Infinity], [-Infinity] and [NaN]: the same expressions without
    rounding, where zero carries no sign.  It serves for what does not
    depend on rounding: which expression each field of the result is, and
    the form of [src/app/page.tsx], embedded with its validation schema, its
    submission and the text functions of its input fields
    ([formatNumberWithCommas], [formatValue], [setValueAs]). *)

From Stdlib Require Import Floats Reals Lra Lia ZArith Arith Bool List Ascii.

#[local] Set Warnings "-inexact-float".

Local Open Scope R_scope.

(** ** Numbers as exact reals *)

Inductive number : Type :=
| Fin (x : R)
| PosInf
| NegInf
| NaN.

Inductive sign : Type := Neg | Zero | Pos.

Definition Rsign (x : R) : sign :=
  match total_order_T x 0 with
  | inleft (left _) => Neg
  | inleft (right _) => Zero
  | inright _ => Pos
  end.

(** [y] is a whole number / an odd whole number. *)
Definition is_integer (y : R) : bool :=
  if Req_dec_T (IZR (Int_part y)) y then true else false.

Definition is_odd_integer (y : R) : bool :=
  is_integer y && Z.odd (Int_part y).

Module Number.

Definition neg (a : number) : number :=
  match a with
  | Fin x => Fin (- x)
  | PosInf => NegInf
  | NegInf => PosInf
  | NaN => NaN
  end.

Definition add (a b : number) : number :=
  match a, b with
  | NaN, _ | _, NaN => NaN
  | Fin x, Fin y => Fin (x + y)
  | PosInf, NegInf | NegInf, PosInf => NaN
  | PosInf, _ | _, PosInf => PosInf
  | NegInf, _ | _, NegInf => NegInf
  end.

(** [a - b] is [a + (-b)], as the language defines it. *)
Definition sub (a b : number) : number := add a (neg b).

(** An infinity times a finite [x]. *)
Definition scale_inf (inf : number) (x : R) : number :=
  match Rsign x with
  | Pos => inf
  | Zero => NaN
  | Neg => neg inf
  end.

Definition mul (a b : number) : number :=
  match a, b with
  | NaN, _ | _, NaN => NaN
  | Fin x, Fin y => Fin (x * y)
  | Fin x, PosInf | PosInf, Fin x => scale_inf PosInf x
  | Fin x, NegInf | NegInf, Fin x => scale_inf NegInf x
  | PosInf, PosInf | NegInf, NegInf => PosInf
  | PosInf, NegInf | NegInf, PosInf => NegInf
  end.

Definition div (a b : number) : number :=
  match a, b with
  | NaN, _ | _, NaN => NaN
  | Fin x, Fin y =>
      match Rsign y with
      | Zero =>
          match Rsign x with
          | Pos => PosInf
          | Zero => NaN
          | Neg => NegInf
          end
      | _ => Fin (x / y)
      end
  | Fin _, (PosInf | NegInf) => Fin 0
  | PosInf, Fin y => match Rsign y with Neg => NegInf | _ => PosInf end
  | NegInf, Fin y => match Rsign y with Neg => PosInf | _ => NegInf end
  | (PosInf | NegInf), (PosInf | NegInf) => NaN
  end.

(** [Math.pow], by the cases of the language's [Number::exponentiate]; the
    last case, "the value of base raised to exponent", is the exact real
    power.  A zero base is read as [+0]. *)
Definition pow (base exponent : number) : number :=
  match exponent with
  | NaN => NaN
  | Fin y =>
      match Rsign y with
      | Zero => Fin 1
      | sy =>
          match base with
          | NaN => NaN
          | PosInf => match sy with Pos => PosInf | _ => Fin 0 end
          | NegInf =>
              match sy with
              | Pos => if is_odd_integer y then NegInf else PosInf
              | _ => Fin 0
              end
          | Fin x =>
              match Rsign x with
              | Pos => Fin (Rpower x y)
              | Zero => match sy with Pos => Fin 0 | _ => PosInf end
              | Neg =>
                  if is_integer y
                  then Fin (if Z.odd (Int_part y)
                            then - Rpower (- x) y else Rpower (- x) y)
                  else NaN
              end
          end
      end
  | PosInf =>
      match base with
      | NaN => NaN
      | PosInf | NegInf => PosInf
      | Fin x =>
          match Rsign x with
          | Zero => Fin 0
          | _ =>
              match Rsign (Rabs x - 1) with
              | Pos => PosInf
              | Zero => NaN
              | Neg => Fin 0
              end
          end
      end
  | NegInf =>
      match base with
      | NaN => NaN
      | PosInf | NegInf => Fin 0
      | Fin x =>
          match Rsign x with
          | Zero => PosInf
          | _ =>
              match Rsign (Rabs x - 1) with
              | Pos => Fin 0
              | Zero => NaN
              | Neg => PosInf
              end
          end
      end
  end.

(** The comparisons [a < b] and [a <= b]; both are false on [NaN]. *)
Definition lt (a b : number) : Prop :=
  match a, b with
  | Fin x, Fin y => x < y
  | Fin _, PosInf | NegInf, Fin _ | NegInf, PosInf => True
  | _, _ => False
  end.

Definition le (a b : number) : Prop :=
  match a, b with
  | Fin x, Fin y => x <= y
  | Fin _, PosInf | NegInf, Fin _ | NegInf, PosInf => True
  | PosInf, PosInf | NegInf, NegInf => True
  | _, _ => False
  end.

Definition is_finite (a : number) : Prop :=
  match a with
  | Fin _ => True
  | _ => False
  end.

End Number.

Declare Scope js_scope.
Delimit Scope js_scope with js.
Bind Scope js_scope with number.
Coercion Fin : R >-> number.

Infix "+" := Number.add : js_scope.
Infix "-" := Number.sub : js_scope.
Infix "*" := Number.mul : js_scope.
Infix "/" := Number.div : js_scope.
Infix "<" := Number.lt : js_scope.
Infix "<=" := Number.le : js_scope.

(** ** The interfaces of [types/mortgage.ts] *)

Record MortgageInputs : Type := {
  homePrice : number;
  downPayment : number;
  loanTerm : number;
  interestRate : number;
  propertyTax : number;
  homeInsurance : number;
  pmi : number;
  hoa : number;
  utilities : number;
  maintenance : number
}.

Record MortgageCalculation : Type := {
  monthlyPrincipalAndInterest : number;
  monthlyPropertyTax : number;
  monthlyInsurance : number;
  monthlyPMI : number;
  monthlyHOA : number;
  monthlyUtilities : number;
  monthlyMaintenance : number;
  totalMonthlyPayment : number;
  totalLoanAmount : number;
  totalInterestPaid : number
}.

(** ** [calculateMortgage] of [utils/mortgageCalculator.ts] *)

Section Calculator.

Local Open Scope js_scope.

Definition calculateMortgage (inputs : MortgageInputs) : MortgageCalculation :=
  let loanAmount := homePrice inputs - downPayment inputs in
  let monthlyInterestRate := interestRate inputs / 100 / 12 in
  let numberOfPayments := loanTerm inputs * 12 in
  let monthlyPrincipalAndInterest :=
    (loanAmount *
       (monthlyInterestRate
        * Number.pow (1 + monthlyInterestRate) numberOfPayments))
    / (Number.pow (1 + monthlyInterestRate) numberOfPayments - 1) in
  let monthlyPropertyTax := (propertyTax inputs / 100 * homePrice inputs) / 12 in
  let monthlyInsurance := homeInsurance inputs / 12 in
  let monthlyPMI := (pmi inputs / 100 * loanAmount) / 12 in
  let monthlyHOA := hoa inputs in
  let monthlyUtilities := utilities inputs in
  let monthlyMaintenance := maintenance inputs in
  let totalMonthlyPayment :=
    monthlyPrincipalAndInterest
    + monthlyPropertyTax
    + monthlyInsurance
    + monthlyPMI
    + monthlyHOA
    + monthlyUtilities
    + monthlyMaintenance in
  let totalInterestPaid :=
    monthlyPrincipalAndInterest * numberOfPayments - loanAmount in
  {| monthlyPrincipalAndInterest := monthlyPrincipalAndInterest;
     monthlyPropertyTax := monthlyPropertyTax;
     monthlyInsurance := monthlyInsurance;
     monthlyPMI := monthlyPMI;
     monthlyHOA := monthlyHOA;
     monthlyUtilities := monthlyUtilities;
     monthlyMaintenance := monthlyMaintenance;
     totalMonthlyPayment := totalMonthlyPayment;
     totalLoanAmount := loanAmount;
     totalInterestPaid := totalInterestPaid |}.

End Calculator.

(** ** The amortization formula as the specification writes it *)

Module Spec.
Local Open Scope js_scope.

Definition loanAmount (i : MortgageInputs) : number :=
  homePrice i - downPayment i.

Definition monthlyRate (i : MortgageInputs) : number :=
  interestRate i / 100 / 12.

Definition numPayments (i : MortgageInputs) : number :=
  loanTerm i * 12.

Definition amortization (i : MortgageInputs) : number :=
  loanAmount i
  * (monthlyRate i * Number.pow (1 + monthlyRate i) (numPayments i))
  / (Number.pow (1 + monthlyRate i) (numPayments i) - 1).

End Spec.

(** The form's default values. *)
Definition defaultValues : MortgageInputs :=
  {| homePrice := 300000; downPayment := 60000; loanTerm := 30;
     interestRate := (35 / 10)%R; propertyTax := (12 / 10)%R;
     homeInsurance := 1200; pmi := (5 / 10)%R; hoa := 250; utilities := 200;
     maintenance := 200 |}.

(** ** The form of [app/page.tsx]: validation and submission *)

(** The [zod] schema of the form.  [z.number()] refuses [NaN] and [min(k)]
    refuses a value below [k]; the comparisons of the model are false on
    [NaN], so [schema data] is "the schema accepts [data]". *)
Definition schema (data : MortgageInputs) : Prop :=
  (1 <= homePrice data)%js /\
  (0 <= downPayment data)%js /\
  (1 <= loanTerm data)%js /\
  (0 <= interestRate data)%js /\
  (0 <= propertyTax data)%js /\
  (0 <= homeInsurance data)%js /\
  (0 <= pmi data)%js /\
  (0 <= hoa data)%js /\
  (0 <= utilities data)%js /\
  (0 <= maintenance data)%js.

(** The state of [Home]: [calculation], which starts as [null]. *)
Definition HomeState : Type := option MortgageCalculation.

Definition initialState : HomeState := None.

(** [handleSubmit(onSubmit)] on the form's [data]: when the schema accepts
    them, [onSubmit] stores [calculateMortgage(data)]; otherwise [onSubmit]
    is not called and the state stays. *)
Inductive handleSubmit (data : MortgageInputs) :
  HomeState -> HomeState -> Prop :=
| submit_accepted (st : HomeState) :
    schema data -> handleSubmit data st (Some (calculateMortgage data))
| submit_refused (st : HomeState) :
    ~ schema data -> handleSubmit data st st.

(** The states [Home] can be in after any number of submissions. *)
Inductive reachable : HomeState -> Prop :=
| reachable_initial : reachable initialState
| reachable_submit (data : MortgageInputs) (st st' : HomeState) :
    reachable st -> handleSubmit data st st' -> reachable st'.

(** ** The text of the input fields, [app/page.tsx]

    A string is the sequence of its characters.  The characters here are the
    256 of [ascii]; every other character of the language is, like most of
    these, neither a digit, a word character nor white space. *)

Section PageText.

Local Open Scope nat_scope.
Local Open Scope list_scope.
Import ListNotations.

Definition str : Type := list ascii.

(** [\d] and [\w]. *)
Definition isDigit (c : ascii) : bool :=
  (48 <=? nat_of_ascii c) && (nat_of_ascii c <=? 57).

Definition isWordChar (c : ascii) : bool :=
  isDigit c
  || ((65 <=? nat_of_ascii c) && (nat_of_ascii c <=? 90))
  || ((97 <=? nat_of_ascii c) && (nat_of_ascii c <=? 122))
  || (c =? "_")%char.

Definition isEmpty (s : str) : bool :=
  match s with
  | [] => true
  | _ :: _ => false
  end.

(** [s.replace(/,/g, '')]. *)
Definition removeCommas (s : str) : str :=
  filter (fun c => negb (c =? ",")%char) s.

(** [s.split(sep)] and [parts.join(sep)] for a separator of one character. *)
Fixpoint split (sep : ascii) (s : str) : list str :=
  match s with
  | [] => [[]]
  | c :: r =>
      if (c =? sep)%char then [] :: split sep r
      else match split sep r with
           | p :: ps => (c :: p) :: ps
           | [] => [[c]]
           end
  end.

Fixpoint join (sep : ascii) (parts : list str) : str :=
  match parts with
  | [] => []
  | p :: ps =>
      match ps with
      | [] => p
      | _ :: _ => p ++ sep :: join sep ps
      end
  end.

(** The number of digits a string starts with. *)
Fixpoint leadingDigits (s : str) : nat :=
  match s with
  | c :: r => if isDigit c then S (leadingDigits r) else 0
  | [] => 0
  end.

(** Whether [/\B(?=(\d{3})+(?!\d))/] matches (the empty string) at the
    position in front of [s], where [prevWord] says whether the character
    before the position is a word character (at the start there is none).
    [\B]: the characters on the two sides are both word characters or both
    not.  The lookahead: some positive number of groups of three digits ends
    where no digit follows, that is, the digits in front are three or more
    and a multiple of three. *)
Definition separatorHere (prevWord : bool) (s : str) : bool :=
  let nextWord := match s with c :: _ => isWordChar c | [] => false end in
  Bool.eqb prevWord nextWord
  && (3 <=? leadingDigits s) && (leadingDigits s mod 3 =? 0).

(** [s.replace(/\B(?=(\d{3})+(?!\d))/g, ',')]: a comma goes in at every
    position where the expression matches. *)
Fixpoint insertSeparators (prevWord : bool) (s : str) : str :=
  (if separatorHere prevWord s then [","%char] else [])
  ++ match s with
     | [] => []
     | c :: r => c :: insertSeparators (isWordChar c) r
     end.

(** [formatNumberWithCommas], on a string (for which [toString] is the
    identity), as its one call passes it. *)
Definition formatNumberWithCommas (value : str) : str :=
  let numberStr := removeCommas value in
  let parts := split "."%char numberStr in
  let parts :=
    match parts with
    | p0 :: ps => insertSeparators false p0 :: ps
    | [] => parts
    end in
  join "."%char parts.

(** *** [parseFloat] *)

(** White space and line ends, among the 256 characters. *)
Definition isWhiteSpace (c : ascii) : bool :=
  let n := nat_of_ascii c in
  ((9 <=? n) && (n <=? 13)) || (n =? 32) || (n =? 160).

Fixpoint trimStart (s : str) : str :=
  match s with
  | c :: r => if isWhiteSpace c then trimStart r else s
  | [] => []
  end.

(** The digits a string starts with, and what follows them. *)
Fixpoint spanDigits (s : str) : str * str :=
  match s with
  | c :: r =>
      if isDigit c
      then let (d, t) := spanDigits r in (c :: d, t)
      else ([], s)
  | [] => ([], [])
  end.

Definition digitValue (c : ascii) : Z := Z.of_nat (nat_of_ascii c - 48).

(** The value of a sequence of decimal digits. *)
Definition decimalDigitsValue (ds : str) : Z :=
  fold_left (fun acc c => (10 * acc + digitValue c)%Z) ds 0%Z.

Fixpoint startsWith (p s : str) : bool :=
  match p, s with
  | [], _ => true
  | a :: p', b :: s' => (a =? b)%char && startsWith p' s'
  | _ :: _, [] => false
  end.

(** The exponent of an [ExponentPart] that [s] starts with, or [0] when it
    starts with none: [e] or [E], a sign or none, and one digit or more. *)
Definition exponentPart (s : str) : Z :=
  match s with
  | c :: r =>
      if (c =? "e")%char || (c =? "E")%char
      then match r with
           | sign :: r' =>
               if (sign =? "+")%char
               then decimalDigitsValue (fst (spanDigits r'))
               else if (sign =? "-")%char
                    then (- decimalDigitsValue (fst (spanDigits r')))%Z
                    else decimalDigitsValue (fst (spanDigits r))
           | [] => 0%Z
           end
      else 0%Z
  | [] => 0%Z
  end.

(** The value of the longest prefix of [s] that is a
    [StrUnsignedDecimalLiteral]: [Infinity], digits with an optional dot,
    fraction and exponent, or a dot with a fraction; [NaN] when no prefix is
    one.  The value is the exact decimal. *)
Definition strUnsignedDecimalLiteral (s : str) : number :=
  if startsWith
       ("I" :: "n" :: "f" :: "i" :: "n" :: "i" :: "t" :: "y" :: nil)%char s
  then PosInf
  else
    let (ip, r1) := spanDigits s in
    let whole :=
      if isEmpty ip then NaN
      else Fin (IZR (decimalDigitsValue ip) * powerRZ 10 (exponentPart r1))%R in
    match r1 with
    | c :: r2 =>
        if (c =? ".")%char
        then
          let (fp, r3) := spanDigits r2 in
          if isEmpty ip && isEmpty fp then NaN
          else Fin (IZR (decimalDigitsValue (ip ++ fp)) / 10 ^ length fp
                    * powerRZ 10 (exponentPart r3))%R
        else whole
    | [] => whole
    end.

Definition parseFloat (string : str) : number :=
  let trimmed := trimStart string in
  match trimmed with
  | c :: r =>
      if (c =? "+")%char then strUnsignedDecimalLiteral r
      else if (c =? "-")%char then Number.neg (strUnsignedDecimalLiteral r)
      else strUnsignedDecimalLiteral trimmed
  | [] => strUnsignedDecimalLiteral trimmed
  end.

Definition isNaN (n : number) : bool :=
  match n with
  | NaN => true
  | _ => false
  end.

(** *** [InputField] *)

(** [keyof MortgageInputs]. *)
Inductive FieldName : Type :=
| F_homePrice | F_downPayment | F_loanTerm | F_interestRate | F_propertyTax
| F_homeInsurance | F_pmi | F_hoa | F_utilities | F_maintenance.

(** [s.indexOf(c)], [None] for [-1]. *)
Fixpoint indexOf (c : ascii) (s : str) : option nat :=
  match s with
  | [] => None
  | a :: r => if (a =? c)%char then Some 0 else option_map S (indexOf c r)
  end.

(** [value.replace(/\./g, (match, index, string) =>
       index === string.indexOf('.') ? '.' : '')]
    on the part [s] of the string that starts at [index], where [first] is
    [string.indexOf('.')]. *)
Fixpoint replaceDots (first : option nat) (index : nat) (s : str) : str :=
  match s with
  | [] => []
  | c :: r =>
      (if (c =? ".")%char
       then match first with
            | Some f => if index =? f then ["."%char] else []
            | None => []
            end
       else [c])
      ++ replaceDots first (S index) r
  end.

Definition isPercentage (name : FieldName) : bool :=
  match name with
  | F_interestRate | F_propertyTax | F_pmi => true
  | _ => false
  end.

Definition decimalPlacesOf (name : FieldName) : nat :=
  if isPercentage name then 3 else 2.

(** [formatValue]: from the text of the field, [e.target.value], to the text
    the handler leaves in it. *)
Definition formatValue (name : FieldName) (targetValue : str) : str :=
  let value := filter (fun c => isDigit c || (c =? ".")%char) targetValue in
  let decimalCount := length (filter (fun c => (c =? ".")%char) value) in
  let value :=
    if 1 <? decimalCount then replaceDots (indexOf "."%char value) 0 value
    else value in
  if isEmpty value then targetValue
  else
    let decimalPlaces := decimalPlacesOf name in
    let parts := split "."%char value in
    let value :=
      match parts with
      | p0 :: p1 :: ps =>
          if negb (isEmpty p1) && (decimalPlaces <? length p1)
          then join "."%char (p0 :: firstn decimalPlaces p1 :: ps)
          else value
      | _ => value
      end in
    let number := parseFloat value in
    if negb (isNaN number) then formatNumberWithCommas value
    else targetValue.

(** The argument of [setValueAs]: a string or a number. *)
Inductive StringOrNumber : Type :=
| Str (s : str)
| Num (n : number).

(** A number is truthy unless it is zero or [NaN]; a string unless it is
    empty. *)
Definition truthyNumber (n : number) : bool :=
  match n with
  | NaN => false
  | Fin x => match Rsign x with Zero => false | _ => true end
  | _ => true
  end.

Definition truthy (value : StringOrNumber) : bool :=
  match value with
  | Str s => negb (isEmpty s)
  | Num n => truthyNumber n
  end.

(** [a || b] on numbers. *)
Definition orElse (a b : number) : number := if truthyNumber a then a else b.

Definition setValueAs (value : StringOrNumber) : number :=
  if negb (truthy value) then Fin 0
  else match value with
       | Num n => n
       | Str s => orElse (parseFloat (removeCommas s)) (Fin 0)
       end.

End PageText.

(** Texts grouped by thousands: any number of groups of a comma and three
    digits, after a first group of one to three digits. *)
Inductive groupsOfThree : str -> Prop :=
| groups_none : groupsOfThree nil
| groups_more (a b c : ascii) (t : str) :
    isDigit a = true -> isDigit b = true -> isDigit c = true ->
    groupsOfThree t ->
    groupsOfThree (","%char :: a :: b :: c :: t).

Definition thousandsGrouped (s : str) : Prop :=
  exists h t : str,
    s = (h ++ t)%list
    /\ (1 <= length h <= 3)%nat
    /\ forallb isDigit h = true
    /\ groupsOfThree t.

(** *** What [formatValue] comes to *)

Section FormattedText.

Local Open Scope list_scope.

(** The characters in front of the first dot, and those behind it. *)
Fixpoint beforeDot (s : str) : str :=
  match s with
  | nil => nil
  | c :: r => if (c =? ".")%char then nil else c :: beforeDot r
  end.

Fixpoint afterDot (s : str) : str :=
  match s with
  | nil => nil
  | c :: r => if (c =? ".")%char then r else afterDot r
  end.

Definition hasDot (s : str) : bool := existsb (fun c => (c =? ".")%char) s.

(** The digits typed in front of the first dot, and those typed behind it. *)
Definition intDigits (raw : str) : str := filter isDigit (beforeDot raw).

Definition fracDigits (raw : str) : str := filter isDigit (afterDot raw).

(** The text [formatValue] leaves in the field, said directly: a text
    without a digit stays; otherwise the digits in front of the first dot,
    with the separators, and, when a dot was typed, a dot and the first two
    digits behind it (three for a percentage). *)
Definition formattedText (name : FieldName) (raw : str) : str :=
  if existsb isDigit raw
  then insertSeparators false (intDigits raw)
       ++ (if hasDot raw
           then "."%char :: firstn (decimalPlacesOf name) (fracDigits raw)
           else nil)
  else raw.

(** The exact value of the decimal [ip.fp]. *)
Definition decimalValue (ip fp : str) : R :=
  (IZR (decimalDigitsValue (ip ++ fp)) / 10 ^ length fp)%R.

End FormattedText.

(** Some texts: [1234567], [.891] and [$1,234.567x]. *)
Definition text_1234567 : str :=
  ("1" :: "2" :: "3" :: "4" :: "5" :: "6" :: "7" :: nil)%char.

Definition text_dot_891 : str := ("." :: "8" :: "9" :: "1" :: nil)%char.

Definition text_typed : str :=
  ("$" :: "1" :: "," :: "2" :: "3" :: "4" :: "." :: "5" :: "6" :: "7" :: "x"
   :: nil)%char.

(** ** [calculateMortgage] on binary64 numbers *)

Module Binary64.
Local Open Scope float_scope.

(** The interfaces of [types/mortgage.ts]: every field is a binary64
    number. *)
Record MortgageInputs := {
  homePrice : float;
  downPayment : float;
  loanTerm : float;
  interestRate : float;
  propertyTax : float;
  homeInsurance : float;
  pmi : float;
  hoa : float;
  utilities : float;
  maintenance : float
}.

Record MortgageCalculation := {
  monthlyPrincipalAndInterest : float;
  monthlyPropertyTax : float;
  monthlyInsurance : float;
  monthlyPMI : float;
  monthlyHOA : float;
  monthlyUtilities : float;
  monthlyMaintenance : float;
  totalMonthlyPayment : float;
  totalLoanAmount : float;
  totalInterestPaid : float
}.

(** *** [Math.pow]

    A finite binary64 number is [m * 2^e] for a positive [m]: it is a whole
    number when [e >= 0] or the [-e] low bits of [m] are zero, and an odd one
    when moreover the bit of weight [2^0] is set. *)
Definition is_integral (x : float) : bool :=
  match Prim2SF x with
  | S754_zero _ => true
  | S754_finite _ m e =>
      (0 <=? e)%Z || (Z.land (Zpos m) (Z.ones (- e)) =? 0)%Z
  | _ => false
  end.

Definition is_odd_integral (x : float) : bool :=
  match Prim2SF x with
  | S754_finite _ m e =>
      (e <=? 0)%Z && (Z.land (Zpos m) (Z.ones (- e)) =? 0)%Z
      && Z.testbit (Zpos m) (- e)
  | _ => false
  end.

Section Engine.

(** What the implementation returns for a power that the standard leaves
    "implementation-approximated". *)
Variable approx : float -> float -> float.

(** The power of a finite base that is not zero to a finite exponent that
    is not zero.  The powers of [1] are [1], the exact result, as [pow] of
    IEEE 754 and the implementations of the language return it; every other
    power is the implementation's. *)
Definition approximated (base exponent : float) : float :=
  if base =? 1 then 1 else approx base exponent.

(** [Math.pow(base, exponent)], case after case of [Number::exponentiate]:
    an exponent that is NaN, then one that is a zero, a base that is NaN,
    an infinite base, a base that is a zero, an infinite exponent, a
    negative base with an exponent that is not a whole number, and the
    approximated powers. *)
Definition Math_pow (base exponent : float) : float :=
  if is_nan exponent then nan
  else if is_zero exponent then 1
  else if is_nan base then nan
  else if is_infinity base then
    if get_sign base
    then if 0 <? exponent
         then if is_odd_integral exponent then neg_infinity else infinity
         else if is_odd_integral exponent then neg_zero else 0
    else if 0 <? exponent then infinity else 0
  else if is_zero base then
    if get_sign base
    then if 0 <? exponent
         then if is_odd_integral exponent then neg_zero else 0
         else if is_odd_integral exponent then neg_infinity else infinity
    else if 0 <? exponent then 0 else infinity
  else if is_infinity exponent then
    if get_sign exponent
    then if 1 <? abs base then 0
         else if abs base =? 1 then nan else infinity
    else if 1 <? abs base then infinity
         else if abs base =? 1 then nan else 0
  else if (base <? 0) && negb (is_integral exponent) then nan
  else approximated base exponent.

(** *** [calculateMortgage] *)
Definition calculateMortgage (inputs : MortgageInputs) : MortgageCalculation :=
  let loanAmount := homePrice inputs - downPayment inputs in
  let monthlyInterestRate := interestRate inputs / 100 / 12 in
  let numberOfPayments := loanTerm inputs * 12 in
  let monthlyPrincipalAndInterest :=
    (loanAmount
     * (monthlyInterestRate
        * Math_pow (1 + monthlyInterestRate) numberOfPayments))
    / (Math_pow (1 + monthlyInterestRate) numberOfPayments - 1) in
  let monthlyPropertyTax :=
    (propertyTax inputs / 100 * homePrice inputs) / 12 in
  let monthlyInsurance := homeInsurance inputs / 12 in
  let monthlyPMI := (pmi inputs / 100 * loanAmount) / 12 in
  let monthlyHOA := hoa inputs in
  let monthlyUtilities := utilities inputs in
  let monthlyMaintenance := maintenance inputs in
  let totalMonthlyPayment :=
    monthlyPrincipalAndInterest + monthlyPropertyTax + monthlyInsurance
    + monthlyPMI + monthlyHOA + monthlyUtilities + monthlyMaintenance in
  let totalInterestPaid :=
    (monthlyPrincipalAndInterest * numberOfPayments) - loanAmount in
  {| monthlyPrincipalAndInterest := monthlyPrincipalAndInterest;
     monthlyPropertyTax := monthlyPropertyTax;
     monthlyInsurance := monthlyInsurance;
     monthlyPMI := monthlyPMI;
     monthlyHOA := monthlyHOA;
     monthlyUtilities := monthlyUtilities;
     monthlyMaintenance := monthlyMaintenance;
     totalMonthlyPayment := totalMonthlyPayment;
     totalLoanAmount := loanAmount;
     totalInterestPaid := totalInterestPaid |}.

End Engine.

(** The local constants of [calculateMortgage], as functions of the inputs:
    the loan amount, the monthly rate, the number of payments, the power
    [(1 + monthlyInterestRate) ^ numberOfPayments], and the dividend and the
    divisor of the payment. *)
Definition loanAmount (inputs : MortgageInputs) : float :=
  homePrice inputs - downPayment inputs.

Definition monthlyInterestRate (inputs : MortgageInputs) : float :=
  interestRate inputs / 100 / 12.

Definition numberOfPayments (inputs : MortgageInputs) : float :=
  loanTerm inputs * 12.

Definition power
  (approx : float -> float -> float) (inputs : MortgageInputs) : float :=
  Math_pow approx (1 + monthlyInterestRate inputs) (numberOfPayments inputs).

Definition dividend
  (approx : float -> float -> float) (inputs : MortgageInputs) : float :=
  loanAmount inputs * (monthlyInterestRate inputs * power approx inputs).

Definition divisor
  (approx : float -> float -> float) (inputs : MortgageInputs) : float :=
  power approx inputs - 1.

(** *** Inputs *)

(** The form's default values. *)
Definition defaultValues : MortgageInputs :=
  {| homePrice := 300000; downPayment := 60000; loanTerm := 30;
     interestRate := 3.5; propertyTax := 1.2; homeInsurance := 1200;
     pmi := 0.5; hoa := 250; utilities := 200; maintenance := 200 |}.

(** The default values with another price, down payment, term, rate and
    PMI rate. *)
Definition loan (price down term rate pmiRate : float) : MortgageInputs :=
  {| homePrice := price; downPayment := down; loanTerm := term;
     interestRate := rate; propertyTax := 1.2; homeInsurance := 1200;
     pmi := pmiRate; hoa := 250; utilities := 200; maintenance := 200 |}.

(** Two positive rates that [1 + monthlyInterestRate] absorbs. *)
Definition tinyRate : MortgageInputs := loan 300000 60000 30 1e-14 0.5.

Definition tinyRate_twice : MortgageInputs := loan 300000 60000 30 2e-14 0.5.

(** A rate of zero, on thirty years and on a term without end. *)
Definition zeroRate : MortgageInputs := loan 300000 60000 30 0 0.5.

Definition zeroRate_endless : MortgageInputs :=
  loan 300000 60000 infinity 0 0.5.

(** A term of [1e308] years: [loanTerm * 12] overflows. *)
Definition longTerm : MortgageInputs := loan 300000 60000 1e308 3.5 0.5.

(** Nothing borrowed: at the default rate, at a rate of zero, on a term of
    [1e308] years, with an infinite price, with an infinite PMI rate, and on
    a term without end at a monthly rate of [-1]. *)
Definition paidInFull : MortgageInputs := loan 300000 300000 30 3.5 0.5.

Definition paidInFull_zeroRate : MortgageInputs :=
  loan 300000 300000 30 0 0.5.

Definition paidInFull_longTerm : MortgageInputs :=
  loan 300000 300000 1e308 3.5 0.5.

Definition paidInFull_infinitePrice : MortgageInputs :=
  loan infinity infinity 30 3.5 0.5.

Definition paidInFull_infinitePMI : MortgageInputs :=
  loan 300000 300000 30 3.5 infinity.

Definition paidInFull_endless : MortgageInputs :=
  loan 300000 300000 infinity (-1200) 0.5.

(** A down payment above the price. *)
Definition overpaid : MortgageInputs := loan 300000 400000 30 3.5 0.5.

(** A price of [1e17]: a down payment of [1] is below half the spacing of
    the binary64 numbers there. *)
Definition dearHome (down : float) : MortgageInputs :=
  loan 1e17 down 30 3.5 0.5.

(** A monthly rate of [-1], where the power is that of [+0], and an annual
    insurance of [1000]. *)
Definition wholeRateBack : MortgageInputs :=
  {| homePrice := 300000; downPayment := 60000; loanTerm := 30;
     interestRate := -1200; propertyTax := 1.2; homeInsurance := 1000;
     pmi := 0.5; hoa := 250; utilities := 200; maintenance := 200 |}.

(** *** The exact value of a binary64 number

    A finite binary64 number is a whole number of units of [2^-1074]. *)
Definition exact_value (x : float) : option Z :=
  match Prim2SF x with
  | S754_zero _ => Some 0%Z
  | S754_finite s m e => Some (cond_Zopp s (Z.shiftl (Zpos m) (e + 1074)))
  | _ => None
  end.

Fixpoint exact_sum (xs : list float) : option Z :=
  match xs with
  | nil => Some 0%Z
  | x :: xs' =>
      match exact_value x, exact_sum xs' with
      | Some a, Some b => Some (a + b)%Z
      | _, _ => None
      end
  end.

(** How far [total] is from the exact sum of [parts], in units of
    [2^-1074]. *)
Definition drift (total : float) (parts : list float) : option Z :=
  match exact_value total, exact_sum parts with
  | Some t, Some s => Some (t - s)%Z
  | _, _ => None
  end.

Definition components (c : MortgageCalculation) : list float :=
  monthlyPrincipalAndInterest c :: monthlyPropertyTax c
  :: monthlyInsurance c :: monthlyPMI c :: monthlyHOA c
  :: monthlyUtilities c :: monthlyMaintenance c :: nil.

(** *** Implementations of the approximated power *)

(** A statement that holds whatever the implementation returns for the
    approximated powers. *)
Definition for_every_approximation
  (P : (float -> float -> float) -> Prop) : Prop :=
  forall approx : float -> float -> float, P approx.

(** One implementation, for the examples: the product of [n] factors
    [base] when the exponent is the natural number [n]. *)
Fixpoint product_of (n : nat) (base : float) : float :=
  match n with
  | O => 1
  | S k => product_of k base * base
  end.

Definition natural_value (x : float) : option nat :=
  match Prim2SF x with
  | S754_finite false m e =>
      if is_integral x then Some (Z.to_nat (Z.shiftl (Zpos m) e)) else None
  | _ => None
  end.

Definition by_repeated_product (base exponent : float) : float :=
  match natural_value exponent with
  | Some n => product_of n base
  | None => nan
  end.

End Binary64.

(** *** Results of rounding *)

(** A result of rounding that is not a zero. *)
Definition SFnonzero (x : spec_float) : Prop :=
  match x with S754_zero _ => False | _ => True end.

(** A value that rounding leaves with the sign [s]: not a zero, not NaN. *)
Definition SFsigned (s : bool) (x : spec_float) : Prop :=
  match x with
  | S754_finite s' _ _ | S754_infinity s' => s' = s
  | _ => False
  end.

(** A mantissa and an exponent in the canonical form of binary64. *)
Definition canonical (m : positive) (e : Z) : Prop :=
  Z.max (Zpos (digits2_pos m) + e - 53) (-1074) = e.

(** * Properties *)

(** ** Signs of reals *)

Lemma Rsign_pos (x : R) : 0 < x -> Rsign x = Pos.
Proof.
  intro H. unfold Rsign. destruct (total_order_T x 0) as [[Hlt | Heq] | Hgt];
    [lra | lra | reflexivity].
Qed.

Lemma Rsign_neg (x : R) : x < 0 -> Rsign x = Neg.
Proof.
  intro H. unfold Rsign. destruct (total_order_T x 0) as [[Hlt | Heq] | Hgt];
    [reflexivity | lra | lra].
Qed.

Lemma Rsign_zero (x : R) : x = 0 -> Rsign x = Zero.
Proof.
  intro H. unfold Rsign. destruct (total_order_T x 0) as [[Hlt | Heq] | Hgt];
    [lra | reflexivity | lra].
Qed.

Lemma Rsign_0 : Rsign 0 = Zero.
Proof. apply Rsign_zero; reflexivity. Qed.

(** Resolve every [Rsign] whose argument [lra] can sign. *)
Ltac rsign :=
  repeat match goal with
    | |- context [Rsign ?x] =>
        first [ rewrite (Rsign_pos x) by lra
              | rewrite (Rsign_neg x) by lra
              | rewrite (Rsign_zero x) by lra ]
    end.

(** ** Numbers: quotients *)

Lemma div_Fin_pos (x y : R) : 0 < y -> Number.div (Fin x) (Fin y) = Fin (x / y).
Proof. intro H. unfold Number.div. rsign. reflexivity. Qed.

(** Discharge the comparisons of literals on the default values. *)
Ltac concrete :=
  unfold defaultValues;
  simpl; repeat split; try exact I; try reflexivity; try lra.

(** * The claims on the expressions of the fields *)




(** * The results in binary64 *)

Section Binary64Facts.

Import Binary64.
Local Open Scope float_scope.

(** ** The classes of binary64 numbers *)

Section FloatClasses.

Lemma SFeqb_refl_finite (s : bool) (m : positive) (e : Z) :
  SFeqb (S754_finite s m e) (S754_finite s m e) = true.
Proof.
  unfold SFeqb, SFcompare.
  destruct s; rewrite Z.compare_refl, Pos.compare_cont_refl; reflexivity.
Qed.

Lemma is_nan_spec (x : float) :
  is_nan x = match Prim2SF x with S754_nan => true | _ => false end.
Proof.
  unfold is_nan. rewrite FloatAxioms.eqb_spec.
  destruct (Prim2SF x) as [s|s| |s m e].
  - reflexivity.
  - destruct s; reflexivity.
  - reflexivity.
  - rewrite SFeqb_refl_finite. reflexivity.
Qed.

Lemma is_zero_spec (x : float) :
  is_zero x = match Prim2SF x with S754_zero _ => true | _ => false end.
Proof.
  unfold is_zero. rewrite FloatAxioms.eqb_spec.
  change (Prim2SF PrimFloat.zero) with (S754_zero false).
  destruct (Prim2SF x) as [s|s| |s m e]; try reflexivity;
    destruct s; reflexivity.
Qed.

Lemma is_infinity_spec (x : float) :
  is_infinity x = match Prim2SF x with S754_infinity _ => true | _ => false end.
Proof.
  unfold is_infinity. rewrite FloatAxioms.eqb_spec, abs_spec.
  change (Prim2SF infinity) with (S754_infinity false).
  destruct (Prim2SF x) as [s|s| |s m e]; reflexivity.
Qed.

Lemma is_finite_spec (x : float) :
  is_finite x =
  match Prim2SF x with S754_zero _ | S754_finite _ _ _ => true | _ => false end.
Proof.
  unfold is_finite. rewrite is_nan_spec, is_infinity_spec.
  destruct (Prim2SF x); reflexivity.
Qed.

Lemma Prim2SF_nan (x : float) : Prim2SF x = S754_nan -> x = nan.
Proof. intro H. rewrite <- (SF2Prim_Prim2SF x), H. reflexivity. Qed.

Lemma is_nan_true (x : float) : is_nan x = true -> x = nan.
Proof.
  rewrite is_nan_spec. intro H. apply Prim2SF_nan.
  destruct (Prim2SF x); try discriminate H. reflexivity.
Qed.

End FloatClasses.

(** ** Zeros, infinities and NaN in the four operations *)

Section FloatArithmetic.

Ltac to_spec :=
  rewrite ?is_nan_spec, ?is_zero_spec, ?is_infinity_spec, ?is_finite_spec,
    ?add_spec, ?sub_spec, ?mul_spec, ?div_spec;
  unfold SF64add, SF64sub, SF64mul, SF64div.

Ltac nan_goal x :=
  apply Prim2SF_nan; to_spec; change (Prim2SF nan) with S754_nan;
  destruct (Prim2SF x); reflexivity.

Lemma add_nan_l (x : float) : nan + x = nan.
Proof. nan_goal x. Qed.
Lemma add_nan_r (x : float) : x + nan = nan.
Proof. nan_goal x. Qed.
Lemma sub_nan_l (x : float) : nan - x = nan.
Proof. nan_goal x. Qed.
Lemma sub_nan_r (x : float) : x - nan = nan.
Proof. nan_goal x. Qed.
Lemma mul_nan_l (x : float) : nan * x = nan.
Proof. nan_goal x. Qed.
Lemma mul_nan_r (x : float) : x * nan = nan.
Proof. nan_goal x. Qed.
Lemma div_nan_l (x : float) : nan / x = nan.
Proof. nan_goal x. Qed.
Lemma div_nan_r (x : float) : x / nan = nan.
Proof. nan_goal x. Qed.

Lemma eqb_one (x : float) : (x =? 1) = true -> x = 1.
Proof.
  rewrite FloatAxioms.eqb_spec. intro H. apply Prim2SF_inj.
  change (Prim2SF 1) with (S754_finite false 4503599627370496 (-52)) in *.
  destruct (Prim2SF x) as [s|s| |s m e]; try (destruct s; discriminate H).
  - discriminate H.
  - unfold SFeqb, SFcompare in H. destruct s; [discriminate H|].
    destruct (Z.compare_spec e (-52)) as [E|E|E]; try discriminate H.
    destruct (PosDef.Pos.compare_cont Eq m 4503599627370496) eqn:E';
      try discriminate H.
    apply Pos.compare_eq in E'.
    subst. reflexivity.
Qed.

Lemma one_plus_zero (r : float) : is_zero r = true -> 1 + r = 1.
Proof.
  rewrite is_zero_spec. intro H. apply Prim2SF_inj. rewrite add_spec.
  change (Prim2SF 1) with (S754_finite false 4503599627370496 (-52)).
  destruct (Prim2SF r); try discriminate H. reflexivity.
Qed.


Lemma is_finite_true (x : float) :
  is_finite x = true -> is_nan x = false /\ is_infinity x = false.
Proof.
  unfold is_finite. destruct (is_nan x), (is_infinity x); intro H;
    try discriminate H; split; reflexivity.
Qed.

(** [x / 0] is never a finite number. *)
Lemma div_by_zero (x d : float) :
  is_zero d = true -> is_finite (x / d) = false.
Proof.
  to_spec. destruct (Prim2SF x), (Prim2SF d); intro H; try discriminate H;
    reflexivity.
Qed.

Lemma zero_div_zero (x d : float) :
  is_zero x = true -> is_zero d = true -> x / d = nan.
Proof.
  intros Hx Hd. apply is_nan_true. revert Hx Hd. to_spec.
  destruct (Prim2SF x), (Prim2SF d); intros Hx Hd;
    try discriminate Hx; try discriminate Hd; reflexivity.
Qed.

(** A product with a zero factor is a zero or NaN. *)
Lemma mul_zero_r (x z : float) :
  is_zero z = true -> is_zero (x * z) = true \/ x * z = nan.
Proof.
  intro Hz.
  destruct (is_nan (x * z)) eqn:E; [right; apply is_nan_true; exact E|left].
  revert Hz E. to_spec.
  destruct (Prim2SF x), (Prim2SF z); intros Hz E;
    try discriminate Hz; try discriminate E; reflexivity.
Qed.

Lemma mul_zero_l (z y : float) :
  is_zero z = true -> is_zero (z * y) = true \/ z * y = nan.
Proof.
  intro Hz.
  destruct (is_nan (z * y)) eqn:E; [right; apply is_nan_true; exact E|left].
  revert Hz E. to_spec.
  destruct (Prim2SF z), (Prim2SF y); intros Hz E;
    try discriminate Hz; try discriminate E; reflexivity.
Qed.

Lemma mul_zero_finite_l (z y : float) :
  is_zero z = true -> is_finite y = true -> is_zero (z * y) = true.
Proof.
  to_spec. destruct (Prim2SF z), (Prim2SF y); intros Hz Hy;
    try discriminate Hz; try discriminate Hy; reflexivity.
Qed.

Lemma mul_zero_finite_r (x z : float) :
  is_finite x = true -> is_zero z = true -> is_zero (x * z) = true.
Proof.
  to_spec. destruct (Prim2SF x), (Prim2SF z); intros Hx Hz;
    try discriminate Hz; try discriminate Hx; reflexivity.
Qed.

Lemma zero_div (z d : float) :
  is_zero z = true -> is_zero d = false -> is_nan d = false ->
  is_zero (z / d) = true.
Proof.
  to_spec. destruct (Prim2SF z), (Prim2SF d); intros Hz Hd Hn;
    try discriminate Hz; try discriminate Hd; try discriminate Hn; reflexivity.
Qed.

Lemma zero_sub_zero (x y : float) :
  is_zero x = true -> is_zero y = true -> is_zero (x - y) = true.
Proof.
  to_spec. destruct (Prim2SF x) as [[]|[]| |], (Prim2SF y) as [[]|[]| |];
    intros Hx Hy; try discriminate Hx; try discriminate Hy; reflexivity.
Qed.

(** NaN and the infinities stay NaN or infinite under [+], [-] and [*]. *)
Lemma add_not_finite (x y : float) :
  is_finite x = false -> is_finite (x + y) = false.
Proof.
  to_spec. destruct (Prim2SF x) as [[]|[]| |], (Prim2SF y) as [[]|[]| |];
    intros Hx; try discriminate Hx; reflexivity.
Qed.

Lemma sub_not_finite (x y : float) :
  is_finite x = false -> is_finite (x - y) = false.
Proof.
  to_spec. destruct (Prim2SF x) as [[]|[]| |], (Prim2SF y) as [[]|[]| |];
    intros Hx; try discriminate Hx; reflexivity.
Qed.

Lemma mul_not_finite (x y : float) :
  is_finite x = false -> is_finite (x * y) = false.
Proof.
  to_spec. destruct (Prim2SF x) as [[]|[]| |], (Prim2SF y) as [[]|[]| |];
    intros Hx; try discriminate Hx; reflexivity.
Qed.

Lemma mul_not_finite_r (x y : float) :
  is_finite y = false -> is_finite (x * y) = false.
Proof.
  to_spec. destruct (Prim2SF x) as [[]|[]| |], (Prim2SF y) as [[]|[]| |];
    intros Hy; try discriminate Hy; reflexivity.
Qed.

(** NaN and the infinities, divided by an infinity, are NaN. *)
Lemma not_finite_div_infinity (x : float) :
  is_finite x = false -> x / infinity = nan.
Proof.
  intro H. apply is_nan_true. revert H. to_spec.
  change (Prim2SF infinity) with (S754_infinity false).
  destruct (Prim2SF x); intro H; try discriminate H; reflexivity.
Qed.

Lemma SFeqb_finite (s1 s2 : bool) (m1 m2 : positive) (e1 e2 : Z) :
  SFeqb (S754_finite s1 m1 e1) (S754_finite s2 m2 e2) = true ->
  s1 = s2 /\ m1 = m2 /\ e1 = e2.
Proof.
  unfold SFeqb, SFcompare.
  destruct s1, s2; try discriminate;
    destruct (Z.compare_spec e1 e2) as [E|E|E]; try discriminate;
    destruct (PosDef.Pos.compare_cont Eq m1 m2) eqn:E'; try discriminate;
    apply Pos.compare_eq in E'; intros _; subst; repeat split.
Qed.

(** The difference of two equal finite numbers is a zero. *)
Lemma sub_equal (x y : float) :
  is_finite x = true -> (y =? x) = true -> is_zero (x - y) = true.
Proof.
  rewrite FloatAxioms.eqb_spec. to_spec.
  destruct (Prim2SF x) as [sx|sx| |sx mx ex], (Prim2SF y) as [sy|sy| |sy my ey];
    intros Hx H; try discriminate Hx; try discriminate H;
    try (destruct sx, sy; reflexivity); try (destruct sx; discriminate H);
    try (destruct sy; discriminate H).
  apply SFeqb_finite in H. destruct H as (-> & -> & ->).
  unfold SFsub. rewrite Z.sub_diag. reflexivity.
Qed.

End FloatArithmetic.

(** ** Rounding *)

Section Rounding.

(** The rounding of SpecFloat, as far as the sign of a rounded value goes:
    a non-zero mantissa at an exponent that is at least [emin] is not
    rounded to zero (binary64 has gradual underflow). *)

Lemma digits2_pos_lower (p : positive) :
  (2 ^ (Zpos (digits2_pos p) - 1) <= Zpos p)%Z.
Proof.
  induction p as [p IH|p IH|]; cbn [digits2_pos].
  - rewrite Pos2Z.inj_succ. replace (Z.succ (Zpos (digits2_pos p)) - 1)%Z
      with (Z.succ (Zpos (digits2_pos p) - 1)) by lia.
    rewrite Z.pow_succ_r by lia. lia.
  - rewrite Pos2Z.inj_succ. replace (Z.succ (Zpos (digits2_pos p)) - 1)%Z
      with (Z.succ (Zpos (digits2_pos p) - 1)) by lia.
    rewrite Z.pow_succ_r by lia. lia.
  - reflexivity.
Qed.

Lemma digits2_pos_upper (p : positive) :
  (Zpos p < 2 ^ Zpos (digits2_pos p))%Z.
Proof.
  induction p as [p IH|p IH|]; cbn [digits2_pos].
  - rewrite Pos2Z.inj_succ, Z.pow_succ_r by lia. lia.
  - rewrite Pos2Z.inj_succ, Z.pow_succ_r by lia. lia.
  - reflexivity.
Qed.

Lemma shr_1_m (mrs : shr_record) :
  (0 <= shr_m mrs)%Z -> shr_m (shr_1 mrs) = (shr_m mrs / 2)%Z.
Proof.
  destruct mrs as [m r s]. cbn [shr_m]. intro H.
  rewrite <- Z.div2_div.
  destruct m as [|[p|p|]|p]; try reflexivity. lia.
Qed.

Lemma pow2_xO (p : positive) : (2 ^ Zpos p~0 = 2 ^ Zpos p * 2 ^ Zpos p)%Z.
Proof.
  replace (Zpos p~0) with (Zpos p + Zpos p)%Z by lia.
  apply Z.pow_add_r; lia.
Qed.

Lemma pow2_xI (p : positive) : (2 ^ Zpos p~1 = 2 * (2 ^ Zpos p * 2 ^ Zpos p))%Z.
Proof.
  replace (Zpos p~1) with (Z.succ (Zpos p~0)) by lia.
  rewrite Z.pow_succ_r, pow2_xO by lia. reflexivity.
Qed.

Lemma iter_shr_1_m (p : positive) (mrs : shr_record) :
  (0 <= shr_m mrs)%Z ->
  shr_m (SpecFloat.iter_pos shr_1 p mrs) = (shr_m mrs / 2 ^ Zpos p)%Z.
Proof.
  revert mrs. induction p as [p IH|p IH|]; intros mrs H;
    cbn [SpecFloat.iter_pos].
  - assert (P : (0 < 2 ^ Zpos p)%Z) by (apply Z.pow_pos_nonneg; lia).
    assert (H1 : (0 <= shr_m (shr_1 mrs))%Z)
      by (rewrite shr_1_m by exact H; apply Z.div_pos; lia).
    assert (H2 : (0 <= shr_m (SpecFloat.iter_pos shr_1 p (shr_1 mrs)))%Z)
      by (rewrite IH by exact H1; apply Z.div_pos; lia).
    rewrite IH by exact H2. rewrite IH by exact H1. rewrite shr_1_m by exact H.
    rewrite !Z.div_div by lia. rewrite pow2_xI, Z.mul_assoc. reflexivity.
  - assert (P : (0 < 2 ^ Zpos p)%Z) by (apply Z.pow_pos_nonneg; lia).
    assert (H2 : (0 <= shr_m (SpecFloat.iter_pos shr_1 p mrs))%Z)
      by (rewrite IH by exact H; apply Z.div_pos; lia).
    rewrite IH by exact H2. rewrite IH by exact H.
    rewrite Z.div_div by lia. rewrite pow2_xO. reflexivity.
  - rewrite shr_1_m by exact H. reflexivity.
Qed.

Lemma shr_record_of_loc_m (m : Z) (l : location) :
  shr_m (shr_record_of_loc m l) = m.
Proof. destruct l as [|[]]; reflexivity. Qed.

Lemma shr_fexp_positive (m e : Z) (l : location) :
  (0 < m)%Z -> (emin <= e)%Z ->
  (0 < shr_m (fst (shr_fexp prec emax m e l)))%Z /\
  (emin <= snd (shr_fexp prec emax m e l))%Z.
Proof.
  intros Hm He. unfold shr_fexp, shr.
  destruct (fexp prec emax (Zdigits2 m + e) - e)%Z as [|p|p] eqn:E;
    cbn [fst snd]; rewrite ?shr_record_of_loc_m; try (split; lia).
  rewrite iter_shr_1_m by (rewrite shr_record_of_loc_m; lia).
  rewrite shr_record_of_loc_m. split; [|lia].
  destruct m as [|q|q]; try lia. cbn [Zdigits2] in E.
  unfold fexp, SpecFloat.emin, prec, emax in *.
  pose proof (digits2_pos_lower q) as Hq.
  apply Z.div_str_pos. split; [apply Z.pow_pos_nonneg; lia|].
  apply Z.le_trans with (2 := Hq). apply Z.pow_le_mono_r; lia.
Qed.

Lemma round_nearest_even_le (m : Z) (l : location) :
  (m <= round_nearest_even m l)%Z.
Proof.
  destruct l as [|[]]; cbn [round_nearest_even]; try lia.
  destruct (Z.even m); lia.
Qed.

Lemma binary_round_aux_nonzero (s : bool) (m e : Z) (l : location) :
  (0 < m)%Z -> (emin <= e)%Z -> SFnonzero (binary_round_aux prec emax s m e l).
Proof.
  intros Hm He. unfold binary_round_aux.
  destruct (shr_fexp_positive m e l Hm He) as [H1 H2].
  destruct (shr_fexp prec emax m e l) as [mrs' e']. cbn [fst snd] in H1, H2.
  pose proof (round_nearest_even_le (shr_m mrs') (loc_of_shr_record mrs'))
    as Hr.
  destruct (shr_fexp_positive
              (round_nearest_even (shr_m mrs') (loc_of_shr_record mrs'))
              e' loc_Exact) as [H3 H4]; [lia|exact H2|].
  destruct (shr_fexp prec emax _ e' loc_Exact) as [mrs'' e''].
  cbn [fst snd] in H3, H4.
  destruct (shr_m mrs'') as [|q|q]; try lia.
  destruct (e'' <=? emax - prec)%Z; exact I.
Qed.

Lemma binary_normalize_nonzero (m e : Z) (sz : bool) :
  m <> 0%Z -> (emin <= e)%Z -> SFnonzero (binary_normalize prec emax m e sz).
Proof.
  intros Hm He.
  assert (R : forall s p, SFnonzero (binary_round prec emax s p e)).
  { intros s p. unfold binary_round, shl_align.
    destruct (fexp prec emax (Zpos (digits2_pos p) + e) - e)%Z eqn:E;
      apply binary_round_aux_nonzero; try lia.
    unfold fexp. lia. }
  destruct m; [congruence| |]; apply R.
Qed.

Lemma iter_xO_value (m d : positive) :
  Zpos (Pos.iter xO m d) = (Zpos m * 2 ^ Zpos d)%Z.
Proof.
  induction d as [|d IH] using Pos.peano_ind.
  - cbn [Pos.iter]. change (2 ^ 1)%Z with 2%Z. lia.
  - rewrite Pos.iter_succ, Pos2Z.inj_succ, Z.pow_succ_r by lia.
    rewrite Pos2Z.inj_xO, IH. ring.
Qed.

Lemma valid_finite (x : float) (s : bool) (m : positive) (e : Z) :
  Prim2SF x = S754_finite s m e ->
  Z.max (Zpos (digits2_pos m) + e - 53) (-1074) = e /\ (e <= 971)%Z.
Proof.
  intro E. pose proof (Prim2SF_valid x) as V. rewrite E in V.
  unfold valid_binary, bounded, canonical_mantissa, fexp in V.
  apply andb_prop in V. destruct V as [V1 V2].
  apply Z.eqb_eq in V1. apply Z.leb_le in V2. split; assumption.
Qed.

(** [a - 1] is a zero only for [a = 1]. *)
Lemma sub_one_zero (a : float) : is_zero (a - 1) = true -> a = 1.
Proof.
  rewrite is_zero_spec, sub_spec. unfold SF64sub. intro H. apply Prim2SF_inj.
  change (Prim2SF 1) with (S754_finite false 4503599627370496 (-52)) in *.
  destruct (Prim2SF a) as [s|s| |s m e] eqn:Ea;
    try (destruct s; discriminate H); try discriminate H.
  destruct (valid_finite a s m e Ea) as [V1 V2].
  pose proof (digits2_pos_lower m) as Lo.
  pose proof (digits2_pos_upper m) as Up.
  unfold SFsub in H.
  set (ez := Z.min e (-52)) in H.
  set (D := (cond_Zopp s (Zpos (fst (shl_align m e ez)))
             - cond_Zopp false
                 (Zpos (fst (shl_align 4503599627370496 (-52) ez))))%Z) in H.
  destruct (Z.eq_dec D 0) as [D0|D0].
  - clear H. unfold D, cond_Zopp in D0.
    destruct s; [lia|].
    assert (A : Zpos (fst (shl_align m e ez)) =
                Zpos (fst (shl_align 4503599627370496 (-52) ez))) by lia.
    clear D D0. unfold shl_align, ez in A.
    destruct (Z.min_spec e (-52)) as [[L E]|[L E]]; rewrite E in A.
    + rewrite Z.sub_diag in A.
      destruct (e - -52)%Z as [|d|d] eqn:Ed; cbn [fst] in A; try lia.
      rewrite iter_xO_value in A.
      assert (P : (2 ^ Zpos (digits2_pos m) <= 2 ^ 53)%Z)
        by (apply Z.pow_le_mono_r; lia).
      assert (Q : (2 ^ 1 <= 2 ^ Zpos d)%Z) by (apply Z.pow_le_mono_r; lia).
      change (2 ^ 53)%Z with 9007199254740992%Z in P.
      change (2 ^ 1)%Z with 2%Z in Q. lia.
    + rewrite Z.sub_diag in A.
      destruct (-52 - e)%Z as [|d|d] eqn:Ed; cbn [fst] in A.
      * assert (e = -52)%Z by lia. subst e. congruence.
      * lia.
      * rewrite iter_xO_value in A.
        assert (Dg : Zpos (digits2_pos m) = 53%Z) by lia.
        rewrite Dg in Lo. change (2 ^ (53 - 1))%Z with 4503599627370496%Z in Lo.
        assert (Q : (2 ^ 1 <= 2 ^ Zpos d)%Z) by (apply Z.pow_le_mono_r; lia).
        change (2 ^ 1)%Z with 2%Z in Q. nia.
  - exfalso.
    assert (N : SFnonzero (binary_normalize prec emax D ez false))
      by (apply binary_normalize_nonzero;
          [exact D0|unfold ez, SpecFloat.emin, prec, emax; lia]).
    destruct (binary_normalize prec emax D ez false);
      [exact N|discriminate H|discriminate H|discriminate H].
Qed.

End Rounding.

(** ** The sign of a difference *)

Section SignOfDifference.

Lemma shl_align_value (m : positive) (e ez : Z) :
  (ez <= e)%Z ->
  Zpos (fst (shl_align m e ez)) = (Zpos m * 2 ^ (e - ez))%Z.
Proof.
  intro H. unfold shl_align.
  destruct (ez - e)%Z as [|d|d] eqn:E; cbn [fst]; try lia.
  - replace (e - ez)%Z with 0%Z by lia. change (2 ^ 0)%Z with 1%Z. lia.
  - rewrite iter_xO_value. replace (e - ez)%Z with (Zpos d) by lia.
    reflexivity.
Qed.

Lemma binary_round_aux_signed (s : bool) (m e : Z) (l : location) :
  (0 < m)%Z -> (emin <= e)%Z -> SFsigned s (binary_round_aux prec emax s m e l).
Proof.
  intros Hm He. unfold binary_round_aux.
  destruct (shr_fexp_positive m e l Hm He) as [H1 H2].
  destruct (shr_fexp prec emax m e l) as [mrs' e']. cbn [fst snd] in H1, H2.
  pose proof (round_nearest_even_le (shr_m mrs') (loc_of_shr_record mrs'))
    as Hr.
  destruct (shr_fexp_positive
              (round_nearest_even (shr_m mrs') (loc_of_shr_record mrs'))
              e' loc_Exact) as [H3 H4]; [lia|exact H2|].
  destruct (shr_fexp prec emax _ e' loc_Exact) as [mrs'' e''].
  cbn [fst snd] in H3, H4.
  destruct (shr_m mrs'') as [|q|q]; try lia.
  destruct (e'' <=? emax - prec)%Z; reflexivity.
Qed.

Lemma binary_round_signed (s : bool) (p : positive) (e : Z) :
  (emin <= e)%Z -> SFsigned s (binary_round prec emax s p e).
Proof.
  intro He. unfold binary_round, shl_align.
  destruct (fexp prec emax (Zpos (digits2_pos p) + e) - e)%Z eqn:E;
    apply binary_round_aux_signed; try lia.
  unfold fexp. lia.
Qed.

(** The sign of a rounded whole number of units is the sign of the
    number. *)
Lemma binary_normalize_compare (D e : Z) (z : bool) :
  (emin <= e)%Z ->
  SFcompare (binary_normalize prec emax D e false) (S754_zero z)
  = Some (D ?= 0)%Z.
Proof.
  intro He. destruct D as [|p|p]; cbn [binary_normalize].
  - reflexivity.
  - pose proof (binary_round_signed false p e He) as S.
    destruct (binary_round prec emax false p e) as [| s| | s ? ?];
      try contradiction; cbn [SFsigned] in S; subst s; reflexivity.
  - pose proof (binary_round_signed true p e He) as S.
    destruct (binary_round prec emax true p e) as [| s| | s ? ?];
      try contradiction; cbn [SFsigned] in S; subst s; reflexivity.
Qed.

(** The order of two positive canonical numbers is that of their units. *)
Lemma magnitude_compare (mx my : positive) (ex ey : Z) :
  canonical mx ex -> canonical my ey ->
  match (ex ?= ey)%Z with
  | Eq => PosDef.Pos.compare_cont Eq mx my
  | Lt => Lt
  | Gt => Gt
  end
  = (Zpos mx * 2 ^ (ex - Z.min ex ey) ?= Zpos my * 2 ^ (ey - Z.min ex ey))%Z.
Proof.
  unfold canonical. intros Cx Cy.
  pose proof (digits2_pos_lower mx) as Lx.
  pose proof (digits2_pos_upper mx) as Ux.
  pose proof (digits2_pos_lower my) as Ly.
  pose proof (digits2_pos_upper my) as Uy.
  assert (B : forall (m : positive) (e : Z),
            Z.max (Zpos (digits2_pos m) + e - 53) (-1074) = e ->
            (Zpos m < 2 ^ 53)%Z).
  { intros m e C. apply Z.lt_le_trans with (1 := digits2_pos_upper m).
    apply Z.pow_le_mono_r; lia. }
  assert (T : forall (m : positive) (e e' : Z),
            Z.max (Zpos (digits2_pos m) + e - 53) (-1074) = e ->
            (-1074 <= e' < e)%Z ->
            (2 ^ 53 <= Zpos m * 2 ^ (e - e'))%Z).
  { intros m e e' C He.
    assert (Dg : Zpos (digits2_pos m) = 53%Z) by lia.
    pose proof (digits2_pos_lower m) as Lm. rewrite Dg in Lm.
    change (2 ^ (53 - 1))%Z with 4503599627370496%Z in Lm.
    assert (Q : (2 ^ 1 <= 2 ^ (e - e'))%Z) by (apply Z.pow_le_mono_r; lia).
    change (2 ^ 1)%Z with 2%Z in Q.
    change (2 ^ 53)%Z with 9007199254740992%Z. nia. }
  destruct (Z.compare_spec ex ey) as [E|E|E].
  - subst ey. rewrite Z.min_id, Z.sub_diag. change (2 ^ 0)%Z with 1%Z.
    rewrite !Z.mul_1_r. reflexivity.
  - rewrite Z.min_l by lia. rewrite Z.sub_diag. change (2 ^ 0)%Z with 1%Z.
    rewrite Z.mul_1_r. symmetry. apply Z.compare_lt_iff.
    apply Z.lt_le_trans with (1 := B mx ex Cx). apply T; [exact Cy|lia].
  - rewrite Z.min_r by lia. rewrite Z.sub_diag. change (2 ^ 0)%Z with 1%Z.
    rewrite Z.mul_1_r. symmetry. apply Z.compare_gt_iff.
    apply Z.lt_le_trans with (1 := B my ey Cy). apply T; [exact Cx|lia].
Qed.

Lemma aligned_compare (sx sy : bool) (mx my : positive) (ex ey : Z) :
  canonical mx ex -> canonical my ey ->
  SFcompare (S754_finite sx mx ex) (S754_finite sy my ey)
  = Some (cond_Zopp sx (Zpos mx * 2 ^ (ex - Z.min ex ey))
          ?= cond_Zopp sy (Zpos my * 2 ^ (ey - Z.min ex ey)))%Z.
Proof.
  intros Cx Cy. pose proof (magnitude_compare mx my ex ey Cx Cy) as M.
  assert (Px : (0 < Zpos mx * 2 ^ (ex - Z.min ex ey))%Z)
    by (apply Z.mul_pos_pos; [lia|apply Z.pow_pos_nonneg; lia]).
  assert (Py : (0 < Zpos my * 2 ^ (ey - Z.min ex ey))%Z)
    by (apply Z.mul_pos_pos; [lia|apply Z.pow_pos_nonneg; lia]).
  unfold SFcompare. f_equal. destruct sx, sy; cbn [cond_Zopp].
  - rewrite Z.compare_opp, (Z.compare_antisym (Zpos mx * _) (Zpos my * _)).
    rewrite <- M.
    destruct (ex ?= ey)%Z; reflexivity.
  - symmetry. apply Z.compare_lt_iff. lia.
  - symmetry. apply Z.compare_gt_iff. lia.
  - exact M.
Qed.

(** The sign of a difference of finite numbers is exact: [x - y] compares
    with zero as [x] compares with [y]. *)
Lemma sub_compare (x y : float) :
  is_finite x = true -> is_finite y = true ->
  SFcompare (Prim2SF (x - y)) (S754_zero false)
  = SFcompare (Prim2SF x) (Prim2SF y).
Proof.
  rewrite !is_finite_spec, sub_spec. unfold SF64sub.
  destruct (Prim2SF x) as [sx|sx| |sx mx ex] eqn:Ex;
    destruct (Prim2SF y) as [sy|sy| |sy my ey] eqn:Ey;
    intros Hx Hy; try discriminate Hx; try discriminate Hy.
  - destruct sx, sy; reflexivity.
  - destruct sy; reflexivity.
  - destruct sx; reflexivity.
  - destruct (valid_finite x sx mx ex Ex) as [Cx _].
    destruct (valid_finite y sy my ey Ey) as [Cy _].
    unfold SFsub.
    rewrite binary_normalize_compare
      by (unfold SpecFloat.emin, prec, emax; lia).
    rewrite !shl_align_value by lia.
    rewrite (aligned_compare sx sy mx my ex ey Cx Cy).
    f_equal. symmetry. apply Z.compare_sub.
Qed.

End SignOfDifference.

(** ** The payment *)

Section PaymentFacts.

Variable approx : float -> float -> float.

(** [Math.pow] at the base [1]. *)
Lemma Math_pow_one_finite (n : float) :
  is_finite n = true -> Math_pow approx 1 n = 1.
Proof.
  intro H. destruct (is_finite_true n H) as [Hn Hi].
  unfold Math_pow, approximated. rewrite Hn, Hi.
  change (is_nan 1) with false. change (is_infinity 1) with false.
  change (is_zero 1) with false. change (1 <? 0) with false.
  change (1 =? 1) with true. cbn [andb].
  destruct (is_zero n); reflexivity.
Qed.

Lemma Math_pow_one (n : float) :
  Math_pow approx 1 n = 1 \/ Math_pow approx 1 n = nan.
Proof.
  unfold Math_pow, approximated.
  change (is_nan 1) with false. change (is_infinity 1) with false.
  change (is_zero 1) with false. change (1 <? 0) with false.
  change (abs 1) with 1. change (1 <? 1) with false.
  change (1 =? 1) with true. cbn [andb].
  destruct (is_nan n); [right; reflexivity|].
  destruct (is_zero n); [left; reflexivity|].
  destruct (is_infinity n); [right; destruct (get_sign n); reflexivity|].
  left; reflexivity.
Qed.

Lemma payment_is_quotient (i : MortgageInputs) :
  monthlyPrincipalAndInterest (calculateMortgage approx i) =
  dividend approx i / divisor approx i.
Proof. reflexivity. Qed.

Lemma zero_rate_payment (i : MortgageInputs) :
  is_zero (monthlyInterestRate i) = true ->
  dividend approx i / divisor approx i = nan.
Proof.
  intro Hr. unfold dividend, divisor, power.
  rewrite (one_plus_zero _ Hr).
  destruct (Math_pow_one (numberOfPayments i)) as [E|E]; rewrite E.
  - change (1 - 1) with 0.
    assert (Hz : is_zero (monthlyInterestRate i * 1) = true)
      by (apply mul_zero_finite_l; [exact Hr|reflexivity]).
    destruct (mul_zero_r (loanAmount i) _ Hz) as [Z|Z].
    + apply zero_div_zero; [exact Z|reflexivity].
    + rewrite Z. apply div_nan_l.
  - rewrite mul_nan_r, mul_nan_r. apply div_nan_l.
Qed.

Lemma absorbed_rate_divisor (i : MortgageInputs) :
  (1 + monthlyInterestRate i =? 1) = true ->
  is_finite (numberOfPayments i) = true ->
  divisor approx i = 0.
Proof.
  intros Hb Hn. unfold divisor, power.
  rewrite (eqb_one _ Hb), (Math_pow_one_finite _ Hn). reflexivity.
Qed.

Lemma total_not_finite (i : MortgageInputs) :
  is_finite (monthlyPrincipalAndInterest (calculateMortgage approx i))
  = false ->
  is_finite (totalMonthlyPayment (calculateMortgage approx i)) = false /\
  is_finite (totalInterestPaid (calculateMortgage approx i)) = false.
Proof.
  intro H. split.
  - cbn [totalMonthlyPayment calculateMortgage].
    do 6 apply add_not_finite. exact H.
  - cbn [totalInterestPaid calculateMortgage].
    apply sub_not_finite, mul_not_finite. exact H.
Qed.

Lemma payment_NaN_spreads (i : MortgageInputs) :
  monthlyPrincipalAndInterest (calculateMortgage approx i) = nan ->
  totalMonthlyPayment (calculateMortgage approx i) = nan /\
  totalInterestPaid (calculateMortgage approx i) = nan.
Proof.
  cbn [monthlyPrincipalAndInterest totalMonthlyPayment totalInterestPaid
       calculateMortgage].
  intro H. rewrite H. split.
  - rewrite !add_nan_l. reflexivity.
  - rewrite mul_nan_l. apply sub_nan_l.
Qed.

Lemma leb_one (x : float) :
  (1 <=? x) = true ->
  is_nan x = false /\ is_zero x = false /\ (x <? 0) = false /\
  ((1 <? abs x) = true \/ (abs x =? 1) = true).
Proof.
  rewrite leb_spec, !ltb_spec, FloatAxioms.eqb_spec, abs_spec,
    is_nan_spec, is_zero_spec.
  change (Prim2SF 1) with (S754_finite false 4503599627370496 (-52)).
  change (Prim2SF 0) with (S754_zero false).
  destruct (Prim2SF x) as [s|s| |s m e]; try (destruct s; discriminate).
  - destruct s; [discriminate|]. intros _. repeat split. left. reflexivity.
  - discriminate.
  - destruct s; [discriminate|]. intro H. repeat split.
    cbn [SFabs]. unfold SFleb, SFltb, SFeqb, SFcompare in *.
    rewrite (Z.compare_antisym (-52) e).
    destruct (-52 ?= e)%Z; cbn [CompOpp]; try discriminate H.
    + pose proof (Pos.compare_cont_antisym 4503599627370496 m Eq) as A.
      change (CompOpp Eq) with Eq in A. rewrite <- A.
      destruct (PosDef.Pos.compare_cont Eq 4503599627370496 m);
        cbn [CompOpp]; try discriminate H; [right|left]; reflexivity.
    + left. reflexivity.
Qed.

Lemma Math_pow_to_infinity (base : float) :
  (1 <=? base) = true ->
  Math_pow approx base infinity = infinity
  \/ Math_pow approx base infinity = nan.
Proof.
  intro H. destruct (leb_one base H) as (Hn & Hz & Hs & Ha).
  unfold Math_pow. rewrite Hn, Hz.
  change (is_nan infinity) with false. change (is_zero infinity) with false.
  change (is_infinity infinity) with true.
  change (get_sign infinity) with false. change (0 <? infinity) with true.
  assert (Hg : get_sign base = false)
    by (unfold get_sign; rewrite Hz; exact Hs).
  rewrite Hg. cbn [andb].
  destruct (is_infinity base); [left; reflexivity|].
  destruct Ha as [Ha|Ha]; rewrite Ha; [left; reflexivity|].
  destruct (1 <? abs base); [left|right]; reflexivity.
Qed.

Lemma overflowed_term_payment (i : MortgageInputs) :
  numberOfPayments i = infinity ->
  (1 <=? 1 + monthlyInterestRate i) = true ->
  monthlyPrincipalAndInterest (calculateMortgage approx i) = nan.
Proof.
  intros Hn Hb. rewrite payment_is_quotient. unfold dividend, divisor, power.
  rewrite Hn.
  destruct (Math_pow_to_infinity _ Hb) as [E|E]; rewrite E.
  - change (infinity - 1) with infinity.
    apply not_finite_div_infinity, mul_not_finite_r, mul_not_finite_r.
    reflexivity.
  - rewrite !mul_nan_r. apply div_nan_l.
Qed.

End PaymentFacts.

(** ** The claims on the results *)

(** The cases of [Math.pow] that the standard fixes. *)
Example Math_pow_cases :
  for_every_approximation (fun approx =>
    Math_pow approx 2 0 = 1 /\ Math_pow approx nan 0 = 1 /\
    Math_pow approx 2 nan = nan /\
    Math_pow approx infinity 2 = infinity /\
    Math_pow approx neg_infinity 3 = neg_infinity /\
    Math_pow approx neg_infinity 2 = infinity /\
    Math_pow approx neg_infinity (-3) = neg_zero /\
    Math_pow approx 0 360 = 0 /\ Math_pow approx neg_zero (-3) = neg_infinity /\
    Math_pow approx 0.5 infinity = 0 /\ Math_pow approx (-1) infinity = nan /\
    Math_pow approx 2 neg_infinity = 0 /\ Math_pow approx (-8) 0.5 = nan /\
    Math_pow approx 1 360 = 1).
Proof. intro approx. vm_compute. repeat split. Qed.

(** The breakdown of the form's default values, the power computed as a
    product of 360 factors. *)
Example default_breakdown :
  calculateMortgage by_repeated_product defaultValues
  = {| monthlyPrincipalAndInterest := 1077.7072507411769;
       monthlyPropertyTax := 300; monthlyInsurance := 100;
       monthlyPMI := 100; monthlyHOA := 250; monthlyUtilities := 200;
       monthlyMaintenance := 200;
       totalMonthlyPayment := 2227.7072507411767;
       totalLoanAmount := 240000;
       totalInterestPaid := 147974.61026682373 |}.
Proof. vm_compute. reflexivity. Qed.






(** C8, as it is stated, fails.  With [downPayment = homePrice]: at a rate
    of zero the payment is [0/0], [NaN]; on a term of [1e308] years the
    power is [+Infinity] and the payment [NaN]; with a price of [Infinity]
    the loan amount is [NaN]; with a PMI rate of [Infinity] the PMI is
    [NaN]; and on a term of [Infinity] at a monthly rate of [-1] the payment
    is [0] and the interest [0 * Infinity], [NaN]. *)
Lemma no_loan_not_always_zero :
  for_every_approximation (fun approx =>
    ((downPayment paidInFull_zeroRate =? homePrice paidInFull_zeroRate) = true
     /\ monthlyPrincipalAndInterest
          (calculateMortgage approx paidInFull_zeroRate) = nan
     /\ totalInterestPaid (calculateMortgage approx paidInFull_zeroRate) = nan)
    /\
    ((downPayment paidInFull_longTerm =? homePrice paidInFull_longTerm) = true
     /\ monthlyPrincipalAndInterest
          (calculateMortgage approx paidInFull_longTerm) = nan)
    /\
    ((downPayment paidInFull_infinitePrice
      =? homePrice paidInFull_infinitePrice) = true
     /\ totalLoanAmount (calculateMortgage approx paidInFull_infinitePrice)
        = nan)
    /\
    ((downPayment paidInFull_infinitePMI
      =? homePrice paidInFull_infinitePMI) = true
     /\ monthlyPMI (calculateMortgage approx paidInFull_infinitePMI) = nan)
    /\
    ((downPayment paidInFull_endless =? homePrice paidInFull_endless) = true
     /\ monthlyPrincipalAndInterest
          (calculateMortgage approx paidInFull_endless) = 0
     /\ totalInterestPaid (calculateMortgage approx paidInFull_endless) = nan)).
Proof. intro approx. vm_compute. repeat split. Qed.

(** C8, amended.  For every input with a finite [homePrice] and
    [downPayment == homePrice], the loan amount is [0].  [monthlyPMI] is [0]
    when [pmi / 100] is finite.  [monthlyPrincipalAndInterest] is [0] when
    [monthlyRate * (1+monthlyRate)^numPayments] is finite and the divisor is
    neither [0] nor [NaN]; [totalInterestPaid] is then [0] when
    [numPayments] is finite. *)
Theorem no_loan_no_payment
  (approx : float -> float -> float) (i : MortgageInputs) :
  is_finite (homePrice i) = true ->
  (downPayment i =? homePrice i) = true ->
  let c := calculateMortgage approx i in
  is_zero (totalLoanAmount c) = true /\
  (is_finite (pmi i / 100) = true -> is_zero (monthlyPMI c) = true) /\
  (is_finite (monthlyInterestRate i * power approx i) = true ->
   is_zero (divisor approx i) = false -> is_nan (divisor approx i) = false ->
   is_zero (monthlyPrincipalAndInterest c) = true /\
   (is_finite (numberOfPayments i) = true ->
    is_zero (totalInterestPaid c) = true)).
Proof.
  intros Hf He c.
  assert (L : is_zero (loanAmount i) = true) by (apply sub_equal; assumption).
  split; [exact L|]. split.
  - intro Hp. unfold c. cbn [monthlyPMI calculateMortgage].
    apply zero_div; [|reflexivity|reflexivity].
    apply mul_zero_finite_r; [exact Hp|exact L].
  - intros Hc Hd Hn.
    assert (P : is_zero (monthlyPrincipalAndInterest c) = true).
    { unfold c. rewrite payment_is_quotient.
      apply zero_div; [|exact Hd|exact Hn].
      apply mul_zero_finite_l; [exact L|exact Hc]. }
    split; [exact P|]. intro Ht.
    change (totalInterestPaid c)
      with (monthlyPrincipalAndInterest c * numberOfPayments i - loanAmount i).
    apply zero_sub_zero; [|exact L].
    apply mul_zero_finite_l; [exact P|exact Ht].
Qed.

Lemma no_loan_no_payment_witness :
  let c := calculateMortgage by_repeated_product paidInFull in
  is_zero (totalLoanAmount c) = true /\ is_zero (monthlyPMI c) = true /\
  is_zero (monthlyPrincipalAndInterest c) = true /\
  is_zero (totalInterestPaid c) = true.
Proof.
  destruct (no_loan_no_payment by_repeated_product paidInFull)
    as (L & M & P); [reflexivity|reflexivity|].
  destruct P as (P & T); [reflexivity|reflexivity|reflexivity|].
  split; [exact L|]. split; [apply M; reflexivity|].
  split; [exact P|]. apply T. reflexivity.
Defined.

(** The payment does not go up from [interestRate = 1e-14] to [2e-14]: it
    is [+Infinity] at both. *)
Example absorbed_rates_same_payment :
  for_every_approximation (fun approx =>
    (0 <? interestRate tinyRate) = true /\
    (interestRate tinyRate <? interestRate tinyRate_twice) = true /\
    monthlyPrincipalAndInterest (calculateMortgage approx tinyRate)
    = infinity /\
    monthlyPrincipalAndInterest (calculateMortgage approx tinyRate_twice)
    = infinity).
Proof. intro approx. vm_compute. repeat split. Qed.

(** On a price of [1e17] a down payment of [1] changes nothing: the loan
    amount, and with it the whole breakdown, is that of no down payment. *)
Example small_downPayment_absorbed :
  for_every_approximation (fun approx =>
    (downPayment (dearHome 0) <? downPayment (dearHome 1)) = true /\
    totalLoanAmount (calculateMortgage approx (dearHome 1))
    = totalLoanAmount (calculateMortgage approx (dearHome 0)) /\
    calculateMortgage approx (dearHome 1)
    = calculateMortgage approx (dearHome 0)).
Proof. intro approx. vm_compute. repeat split. Qed.

(** On a term of [1e308] years, at 3.5%, the interest paid is [NaN]: it is
    not at least zero. *)
Example long_term_interest_NaN :
  for_every_approximation (fun approx =>
    (0 <? interestRate longTerm) = true /\ (1 <=? loanTerm longTerm) = true /\
    (0 <=? downPayment longTerm) = true /\
    (downPayment longTerm <=? homePrice longTerm) = true /\
    totalInterestPaid (calculateMortgage approx longTerm) = nan /\
    (0 <=? totalInterestPaid (calculateMortgage approx longTerm)) = false).
Proof. intro approx. vm_compute. repeat split. Qed.

(** X1. When the monthly rate is so small that [1 + monthlyRate] is [1] in
    binary64 (a rate of zero, or a positive rate the sum absorbs) and the
    number of payments is finite, the payment is [NaN] or an infinity, and
    so are the total payment and the interest paid: none is a finite
    number. *)
Theorem absorbed_rate_no_finite_payment
  (approx : float -> float -> float) (i : MortgageInputs) :
  (1 + monthlyInterestRate i =? 1) = true ->
  is_finite (numberOfPayments i) = true ->
  let c := calculateMortgage approx i in
  is_finite (monthlyPrincipalAndInterest c) = false /\
  is_finite (totalMonthlyPayment c) = false /\
  is_finite (totalInterestPaid c) = false.
Proof.
  intros Hb Hn c.
  assert (P : is_finite (monthlyPrincipalAndInterest c) = false).
  { unfold c. rewrite payment_is_quotient. apply div_by_zero.
    rewrite (absorbed_rate_divisor approx i Hb Hn). reflexivity. }
  split; [exact P|]. apply total_not_finite, P.
Qed.

Lemma absorbed_rate_no_finite_payment_witness :
  let c := calculateMortgage by_repeated_product tinyRate in
  is_finite (monthlyPrincipalAndInterest c) = false /\
  is_finite (totalMonthlyPayment c) = false /\
  is_finite (totalInterestPaid c) = false.
Proof.
  apply (absorbed_rate_no_finite_payment by_repeated_product tinyRate);
    reflexivity.
Defined.

(** X2. At a monthly rate of zero the payment, the total payment and the
    interest paid are [NaN], whatever the other inputs. *)
Theorem zero_rate_spreads_NaN
  (approx : float -> float -> float) (i : MortgageInputs) :
  is_zero (monthlyInterestRate i) = true ->
  let c := calculateMortgage approx i in
  monthlyPrincipalAndInterest c = nan /\ totalMonthlyPayment c = nan /\
  totalInterestPaid c = nan.
Proof.
  intros Hr c.
  assert (P : monthlyPrincipalAndInterest c = nan)
    by (unfold c; rewrite payment_is_quotient; apply zero_rate_payment, Hr).
  split; [exact P|]. apply payment_NaN_spreads, P.
Qed.

Lemma zero_rate_spreads_NaN_witness :
  let c := calculateMortgage by_repeated_product zeroRate in
  monthlyPrincipalAndInterest c = nan /\ totalMonthlyPayment c = nan /\
  totalInterestPaid c = nan.
Proof.
  apply (zero_rate_spreads_NaN by_repeated_product zeroRate). reflexivity.
Defined.

(** X17. When the term is so long that [loanTerm * 12] overflows to
    [+Infinity], and [1 + monthlyRate] is at least [1], the payment, the
    total payment and the interest paid are [NaN]. *)
Theorem overflowed_term_is_NaN
  (approx : float -> float -> float) (i : MortgageInputs) :
  numberOfPayments i = infinity ->
  (1 <=? 1 + monthlyInterestRate i) = true ->
  let c := calculateMortgage approx i in
  monthlyPrincipalAndInterest c = nan /\ totalMonthlyPayment c = nan /\
  totalInterestPaid c = nan.
Proof.
  intros Hn Hb c.
  assert (P : monthlyPrincipalAndInterest c = nan)
    by (apply overflowed_term_payment; assumption).
  split; [exact P|]. apply payment_NaN_spreads, P.
Qed.

Lemma overflowed_term_is_NaN_witness :
  let c := calculateMortgage by_repeated_product longTerm in
  monthlyPrincipalAndInterest c = nan /\ totalMonthlyPayment c = nan /\
  totalInterestPaid c = nan.
Proof.
  apply (overflowed_term_is_NaN by_repeated_product longTerm); reflexivity.
Defined.

(** X7. The sign of the loan amount is exact.  For a finite [homePrice] and
    a finite [downPayment], [totalLoanAmount] compares with zero as
    [homePrice] compares with [downPayment]: it is negative for a down
    payment above the price, a zero for [downPayment == homePrice] only, and
    positive for a down payment below the price. *)
Theorem loan_amount_sign
  (approx : float -> float -> float) (i : MortgageInputs) :
  is_finite (homePrice i) = true -> is_finite (downPayment i) = true ->
  (totalLoanAmount (calculateMortgage approx i) ?= 0)
  = (homePrice i ?= downPayment i).
Proof.
  intros Hp Hd. rewrite !FloatAxioms.compare_spec. f_equal.
  exact (sub_compare (homePrice i) (downPayment i) Hp Hd).
Qed.

Lemma loan_amount_sign_witness :
  (totalLoanAmount (calculateMortgage by_repeated_product overpaid) ?= 0) = FLt
  /\ (totalLoanAmount (calculateMortgage by_repeated_product paidInFull) ?= 0)
     = FEq
  /\ (totalLoanAmount (calculateMortgage by_repeated_product defaultValues)
      ?= 0) = FGt.
Proof.
  split; [|split].
  - apply (eq_trans (loan_amount_sign by_repeated_product overpaid
                       eq_refl eq_refl)).
    reflexivity.
  - apply (eq_trans (loan_amount_sign by_repeated_product paidInFull
                       eq_refl eq_refl)).
    reflexivity.
  - apply (eq_trans (loan_amount_sign by_repeated_product defaultValues
                       eq_refl eq_refl)).
    reflexivity.
Defined.

End Binary64Facts.

(** * The form *)

(** X8. Whatever is submitted, and however often, the breakdown that [Home]
    holds is [null] or the breakdown of data that the schema accepted; so
    the HOA, utilities, maintenance and insurance amounts it shows are never
    negative and never [NaN]. *)
Theorem shown_breakdown_is_of_accepted_data (st : HomeState) :
  reachable st ->
  match st with
  | None => True
  | Some c =>
      (exists data : MortgageInputs, schema data /\ c = calculateMortgage data)
      /\ (0 <= monthlyHOA c)%js /\ (0 <= monthlyUtilities c)%js
      /\ (0 <= monthlyMaintenance c)%js /\ (0 <= monthlyInsurance c)%js
  end.
Proof.
  intro R. induction R as [| data st st' R IH H].
  - exact I.
  - destruct H as [st S | st S]; [| exact IH].
    split; [exists data; split; [exact S | reflexivity] |].
    unfold schema in S.
    destruct S as (_ & _ & _ & _ & _ & Shi & _ & Sh & Su & Sm).
    repeat split; try assumption.
    change (monthlyInsurance (calculateMortgage data))
      with (Number.div (homeInsurance data) (Fin 12)).
    destruct (homeInsurance data) as [x | | |]; simpl in Shi;
      try contradiction.
    + rewrite div_Fin_pos by lra. simpl. lra.
    + unfold Number.div. rsign. exact I.
Qed.

Lemma shown_breakdown_is_of_accepted_data_witness :
  reachable (Some (calculateMortgage defaultValues))
  /\ (0 <= monthlyHOA (calculateMortgage defaultValues))%js.
Proof.
  assert (R : reachable (Some (calculateMortgage defaultValues))).
  { apply (reachable_submit defaultValues initialState);
      [apply reachable_initial |].
    apply submit_accepted. unfold schema. concrete. }
  split; [exact R |].
  exact (proj1 (proj2 (shown_breakdown_is_of_accepted_data _ R))).
Defined.

(** * The text of the input fields *)

Section PageTextFacts.

Local Open Scope nat_scope.
Local Open Scope list_scope.
Import ListNotations.

(** ** [split], [join] and [removeCommas] *)

Lemma split_not_nil (sep : ascii) (s : str) : split sep s <> [].
Proof.
  destruct s as [| c r]; simpl; [discriminate |].
  destruct (c =? sep)%char; [discriminate |].
  destruct (split sep r); discriminate.
Qed.

Lemma join_cons (sep : ascii) (p : str) (ps : list str) :
  ps <> [] -> join sep (p :: ps) = p ++ sep :: join sep ps.
Proof. destruct ps; [congruence | reflexivity]. Qed.

Lemma join_split (sep : ascii) (s : str) : join sep (split sep s) = s.
Proof.
  induction s as [| c r IH]; [reflexivity |].
  cbn [split]. destruct (c =? sep)%char eqn:E.
  - apply Ascii.eqb_eq in E. subst c.
    rewrite join_cons by apply split_not_nil. rewrite IH. reflexivity.
  - pose proof (split_not_nil sep r) as N.
    destruct (split sep r) as [| p ps]; [congruence |].
    destruct ps as [| q qs]; simpl in *; rewrite <- IH; reflexivity.
Qed.

Lemma removeCommas_app (s t : str) :
  removeCommas (s ++ t) = removeCommas s ++ removeCommas t.
Proof. apply filter_app. Qed.

Lemma removeCommas_idempotent (s : str) :
  removeCommas (removeCommas s) = removeCommas s.
Proof.
  unfold removeCommas. induction s as [| c r IH]; [reflexivity |].
  simpl. destruct (c =? ",")%char eqn:E; simpl; [exact IH |].
  rewrite E. simpl. f_equal. exact IH.
Qed.

Lemma removeCommas_join_dot (parts : list str) :
  removeCommas (join "."%char parts) = join "."%char (map removeCommas parts).
Proof.
  induction parts as [| p ps IH]; [reflexivity |].
  destruct ps as [| q qs]; [reflexivity |].
  rewrite join_cons by discriminate.
  change (map removeCommas (p :: q :: qs))
    with (removeCommas p :: map removeCommas (q :: qs)).
  rewrite (join_cons _ (removeCommas p)) by (simpl; discriminate).
  rewrite removeCommas_app, <- IH. reflexivity.
Qed.

(** The separators that go in are commas, and only commas. *)
Lemma removeCommas_insertSeparators (prevWord : bool) (s : str) :
  removeCommas (insertSeparators prevWord s) = removeCommas s.
Proof.
  unfold removeCommas. revert prevWord.
  induction s as [| c r IH]; intro prevWord; cbn [insertSeparators].
  - destruct (separatorHere prevWord []); reflexivity.
  - destruct (separatorHere prevWord (c :: r)); simpl;
      destruct (c =? ",")%char; simpl; rewrite IH; reflexivity.
Qed.

(** Taking the commas out of what [formatNumberWithCommas] returns gives the
    argument without its commas. *)
Lemma removeCommas_formatNumberWithCommas (value : str) :
  removeCommas (formatNumberWithCommas value) = removeCommas value.
Proof.
  unfold formatNumberWithCommas.
  pose proof (join_split "."%char (removeCommas value)) as J.
  destruct (split "."%char (removeCommas value)) as [| p0 ps] eqn:E.
  - simpl in *. rewrite <- J. reflexivity.
  - rewrite removeCommas_join_dot. cbn [map].
    rewrite removeCommas_insertSeparators.
    change (removeCommas p0 :: map removeCommas ps)
      with (map removeCommas (p0 :: ps)).
    rewrite <- removeCommas_join_dot, J. apply removeCommas_idempotent.
Qed.

(** ** Digits *)

Lemma isDigit_not_comma (c : ascii) :
  isDigit c = true -> (c =? ",")%char = false.
Proof.
  intro D. destruct (c =? ",")%char eqn:E; [| reflexivity].
  apply Ascii.eqb_eq in E. subst c. discriminate D.
Qed.

Lemma isDigit_not_dot (c : ascii) :
  isDigit c = true -> (c =? ".")%char = false.
Proof.
  intro D. destruct (c =? ".")%char eqn:E; [| reflexivity].
  apply Ascii.eqb_eq in E. subst c. discriminate D.
Qed.

Lemma isDigit_isWordChar (c : ascii) : isDigit c = true -> isWordChar c = true.
Proof. intro D. unfold isWordChar. rewrite D. reflexivity. Qed.

Lemma leadingDigits_digits (s : str) :
  forallb isDigit s = true -> leadingDigits s = length s.
Proof.
  induction s as [| c r IH]; [reflexivity |].
  simpl. intro H. apply andb_true_iff in H. destruct H as [D R].
  rewrite D, (IH R). reflexivity.
Qed.

Lemma removeCommas_digits (s : str) :
  forallb isDigit s = true -> removeCommas s = s.
Proof.
  induction s as [| c r IH]; [reflexivity |].
  simpl. intro H. apply andb_true_iff in H. destruct H as [D R].
  unfold removeCommas in *. simpl. rewrite (isDigit_not_comma c D). simpl.
  f_equal. exact (IH R).
Qed.

(** ** Groups of three *)

Lemma mod3_succ (n : nat) :
  (S n mod 3 = 0 /\ n mod 3 = 2 /\ 2 <= n) \/ S n mod 3 = S (n mod 3).
Proof.
  pose proof (Nat.div_mod_eq n 3) as E.
  pose proof (Nat.mod_upper_bound n 3) as B.
  assert (C : n mod 3 = 2 \/ n mod 3 < 2) by lia.
  destruct C as [C | C].
  - left. split; [| split; [exact C | lia]].
    symmetry. apply (Nat.mod_unique (S n) 3 (S (n / 3)) 0); lia.
  - right. symmetry.
    apply (Nat.mod_unique (S n) 3 (n / 3) (S (n mod 3))); lia.
Qed.

(** After a digit, the digits that follow are cut into groups of three from
    the right: what is left in front has the length of the rest modulo 3. *)
Lemma insertSeparators_after_digit (s : str) :
  forallb isDigit s = true ->
  exists h t : str,
    insertSeparators true s = h ++ t
    /\ length h = length s mod 3
    /\ forallb isDigit h = true
    /\ groupsOfThree t.
Proof.
  induction s as [| c r IH]; intro H.
  - exists [], []. repeat split; constructor.
  - simpl in H. apply andb_true_iff in H. destruct H as [D R].
    destruct (IH R) as (h & t & E & Lh & Dh & G).
    cbn [insertSeparators]. rewrite (isDigit_isWordChar c D), E.
    unfold separatorHere.
    rewrite (isDigit_isWordChar c D), (leadingDigits_digits (c :: r))
      by (simpl; rewrite D; exact R).
    cbn [length Bool.eqb andb].
    destruct (mod3_succ (length r)) as [(M0 & M2 & L2) | MS].
    + rewrite M0. cbn [Nat.eqb andb].
      assert (L3 : (3 <=? S (length r)) = true) by (apply Nat.leb_le; lia).
      rewrite L3.
      rewrite M2 in Lh.
      destruct h as [| a [| b [| ? ?]]]; simpl in Lh; try discriminate.
      simpl in Dh. apply andb_true_iff in Dh. destruct Dh as [Da Db].
      apply andb_true_iff in Db. destruct Db as [Db _].
      exists [], (","%char :: c :: a :: b :: t).
      repeat split; constructor; assumption.
    + rewrite MS. cbn [Nat.eqb]. rewrite andb_false_r.
      exists (c :: h), t.
      repeat split;
        [cbn [length]; f_equal; exact Lh | simpl; rewrite D; exact Dh
        | exact G].
Qed.

Lemma insertSeparators_digits (s : str) :
  s <> [] -> forallb isDigit s = true ->
  thousandsGrouped (insertSeparators false s).
Proof.
  intros N H. destruct s as [| c r]; [congruence |].
  simpl in H. apply andb_true_iff in H. destruct H as [D R].
  destruct (insertSeparators_after_digit r R) as (h & t & E & Lh & Dh & G).
  exists (c :: h), t.
  cbn [insertSeparators]. unfold separatorHere.
  rewrite (isDigit_isWordChar c D), E. simpl.
  repeat split; try assumption.
  - lia.
  - pose proof (Nat.mod_upper_bound (length r) 3). lia.
  - rewrite D. exact Dh.
Qed.

(** ** Splitting at the first dot *)

Lemma split_digits (p : str) :
  forallb isDigit p = true -> split "."%char p = [p].
Proof.
  induction p as [| c r IH]; [reflexivity |].
  simpl. intro H. apply andb_true_iff in H. destruct H as [D R].
  rewrite (isDigit_not_dot c D), (IH R). reflexivity.
Qed.

Lemma split_digits_dot (p r : str) :
  forallb isDigit p = true ->
  split "."%char (p ++ "."%char :: r) = p :: split "."%char r.
Proof.
  induction p as [| c p' IH]; [reflexivity |].
  simpl. intro H. apply andb_true_iff in H. destruct H as [D R].
  rewrite (isDigit_not_dot c D), (IH R). reflexivity.
Qed.

(** [formatNumberWithCommas] on digits [ip] followed by nothing or by a dot
    and a rest without commas. *)
Lemma formatNumberWithCommas_digits (ip rest : str) :
  forallb isDigit ip = true ->
  removeCommas rest = rest ->
  rest = [] \/ (exists r : str, rest = "."%char :: r) ->
  formatNumberWithCommas (ip ++ rest) = insertSeparators false ip ++ rest.
Proof.
  intros D C Hrest. unfold formatNumberWithCommas.
  rewrite removeCommas_app, (removeCommas_digits ip D), C.
  destruct Hrest as [-> | [r ->]].
  - rewrite app_nil_r, (split_digits ip D). simpl. rewrite app_nil_r.
    reflexivity.
  - rewrite (split_digits_dot ip r D).
    rewrite join_cons by apply split_not_nil.
    rewrite join_split. reflexivity.
Qed.

(** X10. On a whole number of one digit or more, followed by nothing or by a
    dot and a rest without commas, [formatNumberWithCommas] leaves the rest as
    it is and groups the digits by thousands: a first group of one to three
    digits, then groups of a comma and three digits; without the commas the
    digits are those of the argument. *)
Theorem formatNumberWithCommas_groups_thousands (ip rest : str) :
  ip <> [] -> forallb isDigit ip = true ->
  removeCommas rest = rest ->
  rest = [] \/ (exists r : str, rest = "."%char :: r) ->
  exists g : str,
    formatNumberWithCommas (ip ++ rest) = g ++ rest
    /\ thousandsGrouped g
    /\ removeCommas g = ip.
Proof.
  intros N D C Hrest. exists (insertSeparators false ip).
  split; [apply formatNumberWithCommas_digits; assumption | split].
  - apply insertSeparators_digits; assumption.
  - rewrite removeCommas_insertSeparators. apply removeCommas_digits, D.
Qed.

(** ** The first dot *)

Lemma before_after_dot (s : str) :
  s = beforeDot s ++ (if hasDot s then "."%char :: afterDot s else []).
Proof.
  induction s as [| c r IH]; [reflexivity |].
  unfold hasDot in *. simpl. destruct (c =? ".")%char eqn:E.
  - apply Ascii.eqb_eq in E. subst c. reflexivity.
  - simpl. f_equal. exact IH.
Qed.

Lemma forallb_filter {A : Type} (f : A -> bool) (l : list A) :
  forallb f (filter f l) = true.
Proof.
  induction l as [| a l IH]; [reflexivity |].
  simpl. destruct (f a) eqn:E; [| exact IH].
  simpl. rewrite E. exact IH.
Qed.

Lemma beforeDot_kept (raw : str) :
  beforeDot (filter (fun c => isDigit c || (c =? ".")%char) raw)
  = intDigits raw.
Proof.
  unfold intDigits. induction raw as [| c r IH]; [reflexivity |].
  simpl. destruct (c =? ".")%char eqn:E.
  - rewrite orb_true_r. simpl. rewrite E. reflexivity.
  - rewrite orb_false_r. destruct (isDigit c) eqn:D; simpl.
    + rewrite E, D. f_equal. exact IH.
    + rewrite D. exact IH.
Qed.

Lemma afterDot_kept (raw : str) :
  afterDot (filter (fun c => isDigit c || (c =? ".")%char) raw)
  = filter (fun c => isDigit c || (c =? ".")%char) (afterDot raw).
Proof.
  induction raw as [| c r IH]; [reflexivity |].
  simpl. destruct (c =? ".")%char eqn:E.
  - rewrite orb_true_r. simpl. rewrite E. reflexivity.
  - rewrite orb_false_r. destruct (isDigit c) eqn:D; simpl.
    + rewrite E. exact IH.
    + exact IH.
Qed.

Lemma hasDot_kept (raw : str) :
  hasDot (filter (fun c => isDigit c || (c =? ".")%char) raw) = hasDot raw.
Proof.
  unfold hasDot. induction raw as [| c r IH]; [reflexivity |].
  simpl. destruct (c =? ".")%char eqn:E.
  - rewrite orb_true_r. simpl. rewrite E. reflexivity.
  - rewrite orb_false_r. destruct (isDigit c) eqn:D; simpl.
    + rewrite E. exact IH.
    + exact IH.
Qed.

Lemma count_dots (s : str) :
  length (filter (fun c => (c =? ".")%char) s)
  = if hasDot s
    then S (length (filter (fun c => (c =? ".")%char) (afterDot s)))
    else 0.
Proof.
  unfold hasDot. induction s as [| c r IH]; [reflexivity |].
  simpl. destruct (c =? ".")%char eqn:E; simpl; [reflexivity | exact IH].
Qed.

(** ** Dropping every dot but the first *)

Lemma replaceDots_behind (f j : nat) (s : str) :
  f < j ->
  replaceDots (Some f) j s = filter (fun c => negb (c =? ".")%char) s.
Proof.
  revert j. induction s as [| c r IH]; intros j H; [reflexivity |].
  cbn [replaceDots filter]. rewrite (IH (S j)) by lia.
  destruct (c =? ".")%char; simpl; [| reflexivity].
  assert (E : (j =? f) = false) by (apply Nat.eqb_neq; lia).
  rewrite E. reflexivity.
Qed.

Lemma replaceDots_first (s : str) (k : nat) :
  replaceDots (option_map (Nat.add k) (indexOf "."%char s)) k s
  = beforeDot s
    ++ (if hasDot s
        then "."%char :: filter (fun c => negb (c =? ".")%char) (afterDot s)
        else []).
Proof.
  revert k. unfold hasDot. induction s as [| c r IH]; intro k; [reflexivity |].
  cbn [indexOf beforeDot afterDot existsb].
  destruct (c =? ".")%char eqn:E.
  - cbn [option_map replaceDots]. rewrite E, Nat.add_0_r, Nat.eqb_refl.
    rewrite replaceDots_behind by lia. reflexivity.
  - cbn [replaceDots]. rewrite E. cbn [orb app].
    replace (option_map (Nat.add k)
               (option_map S (indexOf "."%char r)))
      with (option_map (Nat.add (S k)) (indexOf "."%char r)).
    + rewrite IH. reflexivity.
    + destruct (indexOf "."%char r); simpl; [f_equal; lia | reflexivity].
Qed.

Lemma filter_no_dot_kept (x : str) :
  filter (fun c => negb (c =? ".")%char)
    (filter (fun c => isDigit c || (c =? ".")%char) x)
  = filter isDigit x.
Proof.
  induction x as [| c r IH]; [reflexivity |].
  simpl. destruct (isDigit c) eqn:D; simpl.
  - rewrite (isDigit_not_dot c D). simpl. f_equal. exact IH.
  - destruct (c =? ".")%char eqn:E; simpl; [rewrite E; simpl |]; exact IH.
Qed.

Lemma filter_no_dot_id (y : str) :
  length (filter (fun c => (c =? ".")%char) y) = 0 ->
  filter (fun c => negb (c =? ".")%char) y = y.
Proof.
  induction y as [| c r IH]; [reflexivity |].
  simpl. destruct (c =? ".")%char; simpl; [discriminate |].
  intro H. f_equal. exact (IH H).
Qed.

(** The text once the characters other than digits and dots, and the dots
    after the first, are gone. *)
Lemma digits_and_first_dot (raw : str) :
  let value := filter (fun c => isDigit c || (c =? ".")%char) raw in
  (if 1 <? length (filter (fun c => (c =? ".")%char) value)
   then replaceDots (indexOf "."%char value) 0 value
   else value)
  = intDigits raw
    ++ (if hasDot raw then "."%char :: fracDigits raw else []).
Proof.
  intro value. unfold fracDigits.
  pose proof (replaceDots_first value 0) as RD.
  replace (option_map (Nat.add 0) (indexOf "."%char value))
    with (indexOf "."%char value) in RD
    by (destruct (indexOf "."%char value); reflexivity).
  pose proof (before_after_dot value) as BA.
  pose proof (count_dots value) as CD.
  unfold value in RD, BA, CD at 2 3.
  rewrite beforeDot_kept, hasDot_kept, afterDot_kept in RD, BA.
  rewrite hasDot_kept, afterDot_kept in CD.
  rewrite filter_no_dot_kept in RD.
  destruct (1 <? length (filter (fun c => (c =? ".")%char) value)) eqn:C.
  - exact RD.
  - fold value in BA. rewrite BA at 1.
    destruct (hasDot raw); [| reflexivity].
    apply Nat.ltb_ge in C. rewrite CD in C.
    rewrite <- filter_no_dot_kept.
    rewrite filter_no_dot_id by lia. reflexivity.
Qed.

(** ** [parseFloat] on digits and a dot *)

(** A digit or a dot is no white space, no sign, and not the [I] of
    [Infinity]. *)
Lemma plain_first_char (c : ascii) :
  isDigit c = true \/ c = "."%char ->
  isWhiteSpace c = false /\ (c =? "+")%char = false
  /\ (c =? "-")%char = false /\ ("I" =? c)%char = false.
Proof.
  intros [D | ->]; [| repeat split; reflexivity].
  repeat split.
  - unfold isDigit in D. unfold isWhiteSpace.
    apply andb_true_iff in D. destruct D as [D1 D2].
    apply Nat.leb_le in D1. apply Nat.leb_le in D2.
    assert (E1 : (nat_of_ascii c <=? 13) = false) by (apply Nat.leb_gt; lia).
    assert (E2 : (nat_of_ascii c =? 32) = false) by (apply Nat.eqb_neq; lia).
    assert (E3 : (nat_of_ascii c =? 160) = false) by (apply Nat.eqb_neq; lia).
    rewrite E1, E2, E3, andb_false_r. reflexivity.
  - destruct (c =? "+")%char eqn:E; [| reflexivity].
    apply Ascii.eqb_eq in E. subst c. discriminate D.
  - destruct (c =? "-")%char eqn:E; [| reflexivity].
    apply Ascii.eqb_eq in E. subst c. discriminate D.
  - destruct ("I" =? c)%char eqn:E; [| reflexivity].
    apply Ascii.eqb_eq in E. subst c. discriminate D.
Qed.

Lemma spanDigits_digits (ip rest : str) :
  forallb isDigit ip = true ->
  leadingDigits rest = 0 ->
  spanDigits (ip ++ rest) = (ip, rest).
Proof.
  intros D L. induction ip as [| c r IH].
  - destruct rest as [| a rest']; [reflexivity |].
    simpl in *. destruct (isDigit a); [discriminate | reflexivity].
  - simpl in D. apply andb_true_iff in D. destruct D as [Dc Dr].
    simpl. rewrite Dc, (IH Dr). reflexivity.
Qed.

Lemma decimalDigitsValue_from (ds : str) (acc : Z) :
  (0 <= acc)%Z ->
  (0 <= fold_left (fun a c => 10 * a + digitValue c) ds acc)%Z.
Proof.
  revert acc. induction ds as [| c r IH]; intros acc H; [exact H |].
  cbn [fold_left]. apply IH. unfold digitValue. lia.
Qed.

Lemma decimalValue_nonnegative (ip fp : str) : (0 <= decimalValue ip fp)%R.
Proof.
  unfold decimalValue.
  assert (H : (0 <= decimalDigitsValue (ip ++ fp))%Z)
    by (apply decimalDigitsValue_from; lia).
  apply IZR_le in H.
  assert (P : (0 < 10 ^ length fp)%R) by (apply pow_lt; lra).
  apply Rmult_le_pos; [exact H | apply Rlt_le, Rinv_0_lt_compat, P].
Qed.

(** [parseFloat] of digits [ip], alone or with a dot and digits [fp]. *)
Lemma parseFloat_decimal (ip fp : str) (dot : bool) :
  forallb isDigit ip = true -> forallb isDigit fp = true ->
  (dot = false -> ip <> [] /\ fp = []) ->
  parseFloat (ip ++ (if dot then "."%char :: fp else []))
  = if isEmpty ip && isEmpty fp then NaN else Fin (decimalValue ip fp).
Proof.
  intros Di Df Hdot.
  set (s := ip ++ (if dot then "."%char :: fp else [])).
  assert (First : exists c r, s = c :: r
                              /\ (isDigit c = true \/ c = "."%char)).
  { unfold s. destruct ip as [| c r].
    - destruct dot; [exists "."%char, fp; auto |].
      destruct (Hdot eq_refl) as [N _]. congruence.
    - simpl in Di. apply andb_true_iff in Di. destruct Di as [Dc _].
      eexists _, _. split; [reflexivity | left; exact Dc]. }
  destruct First as (c & r & Es & Hc).
  destruct (plain_first_char c Hc) as (W & Pl & Mi & In).
  unfold parseFloat. rewrite Es. cbn [trimStart]. rewrite W, Pl, Mi.
  unfold strUnsignedDecimalLiteral. cbn [startsWith]. rewrite In.
  cbn [andb]. rewrite <- Es. unfold s.
  rewrite spanDigits_digits by (try assumption; destruct dot; reflexivity).
  destruct dot.
  - rewrite Ascii.eqb_refl.
    replace fp with (fp ++ []) at 1 by apply app_nil_r.
    rewrite spanDigits_digits by (try assumption; reflexivity).
    destruct (isEmpty ip && isEmpty fp); [reflexivity |].
    unfold decimalValue. simpl. f_equal. lra.
  - destruct (Hdot eq_refl) as [N ->].
    destruct ip as [| a ip']; [congruence |].
    unfold decimalValue. rewrite app_nil_r. simpl. f_equal. lra.
Qed.

(** ** [formatValue] *)

Lemma existsb_filter_digits (s : str) :
  existsb isDigit s = negb (isEmpty (filter isDigit s)).
Proof.
  induction s as [| c r IH]; [reflexivity |].
  simpl. destruct (isDigit c); [reflexivity | exact IH].
Qed.

Lemma has_digit_parts (raw : str) :
  existsb isDigit raw
  = negb (isEmpty (intDigits raw)) || negb (isEmpty (fracDigits raw)).
Proof.
  unfold intDigits, fracDigits. induction raw as [| c r IH]; [reflexivity |].
  simpl. destruct (c =? ".")%char eqn:E.
  - apply Ascii.eqb_eq in E. subst c. simpl. apply existsb_filter_digits.
  - simpl. destruct (isDigit c); [reflexivity | exact IH].
Qed.

Lemma no_dot_no_fraction (raw : str) :
  hasDot raw = false -> fracDigits raw = [].
Proof.
  unfold hasDot, fracDigits. induction raw as [| c r IH]; [reflexivity |].
  simpl. destruct (c =? ".")%char; simpl; [discriminate | exact IH].
Qed.

Lemma firstn_digits (n : nat) (s : str) :
  forallb isDigit s = true -> forallb isDigit (firstn n s) = true.
Proof.
  revert n. induction s as [| c r IH]; intros n H.
  - rewrite firstn_nil. reflexivity.
  - destruct n as [| n]; [reflexivity |].
    simpl in *. apply andb_true_iff in H. destruct H as [D R].
    rewrite D, (IH n R). reflexivity.
Qed.

Lemma decimalPlacesOf_positive (name : FieldName) : 2 <= decimalPlacesOf name.
Proof. unfold decimalPlacesOf. destruct (isPercentage name); lia. Qed.

Lemma isEmpty_firstn (n : nat) (s : str) :
  1 <= n -> isEmpty (firstn n s) = isEmpty s.
Proof. intro H. destruct n; [lia |]. destruct s; reflexivity. Qed.

(** The fraction after the cut to [decimalPlaces] digits. *)
Lemma cut_fraction (name : FieldName) (ip fp0 : str) :
  (if negb (isEmpty fp0) && (decimalPlacesOf name <? length fp0)
   then join "."%char (ip :: firstn (decimalPlacesOf name) fp0 :: [])
   else ip ++ "."%char :: fp0)
  = ip ++ "."%char :: firstn (decimalPlacesOf name) fp0.
Proof.
  destruct (negb (isEmpty fp0) && (decimalPlacesOf name <? length fp0)) eqn:C.
  - reflexivity.
  - apply andb_false_iff in C. destruct C as [C | C].
    + destruct fp0; [| discriminate C]. rewrite firstn_nil. reflexivity.
    + apply Nat.ltb_ge in C. rewrite firstn_all2 by exact C. reflexivity.
Qed.

(** [formatValue] is [formattedText]. *)
Lemma formatValue_formattedText (name : FieldName) (raw : str) :
  formatValue name raw = formattedText name raw.
Proof.
  unfold formatValue, formattedText. cbv zeta.
  pose proof (digits_and_first_dot raw) as V. cbv zeta in V. rewrite V.
  clear V. rewrite has_digit_parts.
  assert (Di : forallb isDigit (intDigits raw) = true)
    by apply forallb_filter.
  assert (Df : forallb isDigit (fracDigits raw) = true)
    by apply forallb_filter.
  pose proof (decimalPlacesOf_positive name) as Hdp.
  set (ip := intDigits raw) in *. set (fp0 := fracDigits raw) in *.
  destruct (hasDot raw) eqn:Hd.
  - (* a dot was typed *)
    replace (isEmpty (ip ++ "."%char :: fp0)) with false
      by (destruct ip; reflexivity).
    rewrite (split_digits_dot ip fp0 Di), (split_digits fp0 Df).
    cbv iota.
    match goal with
    | |- context [parseFloat ?v] =>
        assert (E : v = ip ++ "."%char :: firstn (decimalPlacesOf name) fp0)
          by apply cut_fraction;
        rewrite E; clear E
    end.
    set (fp := firstn (decimalPlacesOf name) fp0).
    assert (Dfp : forallb isDigit fp = true) by (apply firstn_digits, Df).
    pose proof (parseFloat_decimal ip fp true Di Dfp) as P.
    cbv iota in P. rewrite P by discriminate.
    unfold fp at 1 2. rewrite isEmpty_firstn by lia.
    destruct ip as [| a ip'], fp0 as [| b fp0'];
      cbn [isEmpty andb negb orb isNaN]; try reflexivity.
    + apply (formatNumberWithCommas_digits [] ("."%char :: fp));
        [reflexivity | | right; eexists; reflexivity].
      unfold removeCommas. simpl. f_equal. apply removeCommas_digits, Dfp.
    + apply (formatNumberWithCommas_digits (a :: ip') ("."%char :: fp));
        [exact Di | | right; eexists; reflexivity].
      unfold removeCommas. simpl. f_equal. apply removeCommas_digits, Dfp.
    + apply (formatNumberWithCommas_digits (a :: ip') ("."%char :: fp));
        [exact Di | | right; eexists; reflexivity].
      unfold removeCommas. simpl. f_equal. apply removeCommas_digits, Dfp.
  - (* no dot *)
    assert (Ef : fp0 = []) by (apply no_dot_no_fraction, Hd).
    rewrite Ef, app_nil_r. cbn [isEmpty negb orb].
    destruct ip as [| a ip'] eqn:Eip; cbn [isEmpty negb orb]; [reflexivity |].
    rewrite <- Eip in *. rewrite (split_digits ip Di).
    pose proof (parseFloat_decimal ip [] false Di eq_refl) as P.
    cbv iota in P. rewrite app_nil_r in P. rewrite P.
    + rewrite Eip. cbn [isEmpty andb negb isNaN]. rewrite <- Eip.
      rewrite <- (app_nil_r ip) at 1.
      apply formatNumberWithCommas_digits;
        [exact Di | reflexivity | left; reflexivity].
    + intros _. split; [rewrite Eip; discriminate | reflexivity].
Qed.

(** ** The separators and the dots *)

Lemma insertSeparators_digits_commas (prevWord : bool) (s : str) :
  forallb isDigit s = true ->
  forallb (fun c => isDigit c || (c =? ",")%char)
    (insertSeparators prevWord s) = true.
Proof.
  revert prevWord. induction s as [| c r IH]; intros prevWord H;
    cbn [insertSeparators].
  - destruct (separatorHere prevWord []); reflexivity.
  - simpl in H. apply andb_true_iff in H. destruct H as [D R].
    destruct (separatorHere prevWord (c :: r)); simpl;
      rewrite D, (IH _ R); reflexivity.
Qed.

Lemma filter_digits_insertSeparators (prevWord : bool) (s : str) :
  forallb isDigit s = true ->
  filter isDigit (insertSeparators prevWord s) = s.
Proof.
  revert prevWord. induction s as [| c r IH]; intros prevWord H;
    cbn [insertSeparators].
  - destruct (separatorHere prevWord []); reflexivity.
  - simpl in H. apply andb_true_iff in H. destruct H as [D R].
    destruct (separatorHere prevWord (c :: r)); simpl;
      rewrite D, (IH _ R); reflexivity.
Qed.

Lemma filter_digits_id (s : str) :
  forallb isDigit s = true -> filter isDigit s = s.
Proof.
  induction s as [| c r IH]; [reflexivity |].
  simpl. intro H. apply andb_true_iff in H. destruct H as [D R].
  rewrite D, (IH R). reflexivity.
Qed.

(** In front of a text [x] of digits and commas, the first dot of [x ++ r]
    is that of [r]. *)
Lemma first_dot_behind (x r : str) :
  forallb (fun c => isDigit c || (c =? ",")%char) x = true ->
  beforeDot (x ++ r) = x ++ beforeDot r
  /\ afterDot (x ++ r) = afterDot r
  /\ hasDot (x ++ r) = hasDot r.
Proof.
  unfold hasDot. induction x as [| c x' IH]; intro H; [auto |].
  simpl in H. apply andb_true_iff in H. destruct H as [Hc Hx].
  destruct (IH Hx) as (B & A & D).
  assert (E : (c =? ".")%char = false).
  { destruct (c =? ".")%char eqn:E; [| reflexivity].
    apply Ascii.eqb_eq in E. subst c. discriminate Hc. }
  simpl. rewrite E, B, A, D. auto.
Qed.

(** What was typed can be read back from the formatted text. *)
Lemma formattedText_parts (name : FieldName) (raw : str) :
  existsb isDigit raw = true ->
  intDigits (formattedText name raw) = intDigits raw
  /\ fracDigits (formattedText name raw)
     = firstn (decimalPlacesOf name) (fracDigits raw)
  /\ hasDot (formattedText name raw) = hasDot raw
  /\ existsb isDigit (formattedText name raw) = true.
Proof.
  intro H. rewrite (has_digit_parts (formattedText name raw)).
  unfold formattedText. rewrite H. rewrite has_digit_parts in H.
  assert (Di : forallb isDigit (intDigits raw) = true)
    by apply forallb_filter.
  assert (Df : forallb isDigit (fracDigits raw) = true)
    by apply forallb_filter.
  pose proof (decimalPlacesOf_positive name) as Hdp.
  set (ip := intDigits raw) in *. set (fp0 := fracDigits raw) in *.
  set (fp := firstn (decimalPlacesOf name) fp0).
  assert (Dfp : forallb isDigit fp = true) by (apply firstn_digits, Df).
  set (r := if hasDot raw then "."%char :: fp else []).
  destruct (first_dot_behind (insertSeparators false ip) r
              (insertSeparators_digits_commas false ip Di)) as (B & A & D).
  unfold intDigits at 1 2, fracDigits at 1 2. rewrite B, A, D.
  rewrite filter_app, (filter_digits_insertSeparators false ip Di).
  unfold r. destruct (hasDot raw) eqn:Hd.
  - cbn [beforeDot afterDot hasDot existsb]. rewrite Ascii.eqb_refl.
    cbn [filter orb]. rewrite app_nil_r, (filter_digits_id fp Dfp).
    unfold fp at 3. rewrite isEmpty_firstn by lia.
    repeat split. exact H.
  - assert (Ef : fp0 = []) by (apply no_dot_no_fraction, Hd).
    unfold fp. rewrite Ef in *. rewrite firstn_nil.
    cbn [beforeDot afterDot hasDot existsb filter]. rewrite app_nil_r.
    repeat split. exact H.
Qed.

Lemma formattedText_idempotent (name : FieldName) (raw : str) :
  formattedText name (formattedText name raw) = formattedText name raw.
Proof.
  destruct (existsb isDigit raw) eqn:H.
  - destruct (formattedText_parts name raw H) as (I & F & D & E).
    unfold formattedText at 1. rewrite E, I, F, D.
    rewrite firstn_firstn, Nat.min_id.
    unfold formattedText. rewrite H. reflexivity.
  - unfold formattedText. rewrite H, H. reflexivity.
Qed.

(** The number [setValueAs] makes of a formatted text. *)
Lemma setValueAs_formattedText (name : FieldName) (raw : str) :
  existsb isDigit raw = true ->
  setValueAs (Str (formattedText name raw))
  = Fin (decimalValue (intDigits raw)
           (firstn (decimalPlacesOf name) (fracDigits raw))).
Proof.
  intro H. unfold formattedText. rewrite H. rewrite has_digit_parts in H.
  assert (Di : forallb isDigit (intDigits raw) = true)
    by apply forallb_filter.
  assert (Df : forallb isDigit (fracDigits raw) = true)
    by apply forallb_filter.
  pose proof (decimalPlacesOf_positive name) as Hdp.
  set (ip := intDigits raw) in *. set (fp0 := fracDigits raw) in *.
  set (fp := firstn (decimalPlacesOf name) fp0).
  assert (Dfp : forallb isDigit fp = true) by (apply firstn_digits, Df).
  assert (Efp : isEmpty fp = isEmpty fp0)
    by (unfold fp; apply isEmpty_firstn; lia).
  set (r := if hasDot raw then "."%char :: fp else []).
  assert (Cr : removeCommas r = r).
  { unfold r. destruct (hasDot raw); [| reflexivity].
    unfold removeCommas. simpl. f_equal. apply removeCommas_digits, Dfp. }
  assert (Nonempty : isEmpty (insertSeparators false ip ++ r) = false).
  { destruct ip as [| a ip'].
    - unfold r. destruct (hasDot raw) eqn:Hd; [reflexivity |].
      assert (Ef : fp0 = []) by (apply no_dot_no_fraction, Hd).
      rewrite Ef in H. discriminate H.
    - simpl in Di. apply andb_true_iff in Di. destruct Di as [Da _].
      cbn [insertSeparators]. unfold separatorHere.
      rewrite (isDigit_isWordChar a Da). reflexivity. }
  unfold setValueAs, truthy. rewrite Nonempty. cbn [negb].
  rewrite removeCommas_app, removeCommas_insertSeparators,
    (removeCommas_digits ip Di), Cr.
  pose proof (parseFloat_decimal ip fp (hasDot raw) Di Dfp) as P.
  fold r in P. rewrite P.
  - rewrite Efp.
    destruct (isEmpty ip && isEmpty fp0) eqn:E.
    + apply andb_true_iff in E. destruct E as [E1 E2].
      rewrite E1, E2 in H. discriminate H.
    + unfold orElse, truthyNumber.
      destruct (Rsign (decimalValue ip fp)) eqn:S; try reflexivity.
      unfold Rsign in S.
      destruct (total_order_T (decimalValue ip fp) 0) as [[L | Z] | G];
        try discriminate S.
      rewrite Z. reflexivity.
  - intro Hd.
    assert (Ef : fp0 = []) by (apply no_dot_no_fraction, Hd).
    split.
    + intro Eip. rewrite Eip, Ef in H. discriminate H.
    + unfold fp. rewrite Ef. apply firstn_nil.
Qed.

Lemma forallb_weaken {A : Type} (f g : A -> bool) (l : list A) :
  (forall x : A, f x = true -> g x = true) ->
  forallb f l = true -> forallb g l = true.
Proof.
  intro W. induction l as [| a l IH]; [reflexivity |].
  simpl. intro H. apply andb_true_iff in H. destruct H as [Ha Hl].
  rewrite (W a Ha), (IH Hl). reflexivity.
Qed.

(** ** The properties of the text functions *)

(** X9. [formatNumberWithCommas] adds and drops commas and touches nothing
    else: without its commas the result is the argument without its commas.
    So it is idempotent: formatting a formatted text changes nothing. *)
Theorem formatNumberWithCommas_keeps_text (value : str) :
  removeCommas (formatNumberWithCommas value) = removeCommas value
  /\ formatNumberWithCommas (formatNumberWithCommas value)
     = formatNumberWithCommas value.
Proof.
  split; [apply removeCommas_formatNumberWithCommas |].
  unfold formatNumberWithCommas at 1.
  rewrite removeCommas_formatNumberWithCommas. reflexivity.
Qed.

Lemma formatNumberWithCommas_groups_thousands_witness :
  exists g : str,
    formatNumberWithCommas (text_1234567 ++ text_dot_891) = g ++ text_dot_891
    /\ thousandsGrouped g
    /\ removeCommas g = text_1234567.
Proof.
  apply (formatNumberWithCommas_groups_thousands text_1234567 text_dot_891);
    [discriminate | reflexivity | reflexivity
    | right; eexists; reflexivity].
Defined.

(** X11. What [formatValue] leaves in the field.  A text without a digit is
    left as it is, letters included.  Otherwise the field gets the digits
    typed in front of the first dot, with the separators of
    [formatNumberWithCommas], and, when a dot was typed, a dot and the first
    two digits typed behind it (three for the interest, property tax and PMI
    rates); every other character is dropped. *)
Theorem formatValue_is_formattedText (name : FieldName) (raw : str) :
  formatValue name raw = formattedText name raw.
Proof. apply formatValue_formattedText. Qed.

(** X12. [formatValue] is idempotent: on the text it left in the field it
    leaves the same text. *)
Theorem formatValue_idempotent (name : FieldName) (raw : str) :
  formatValue name (formatValue name raw) = formatValue name raw.
Proof.
  rewrite !formatValue_formattedText. apply formattedText_idempotent.
Qed.

(** X13. When the text typed has a digit, the text [formatValue] leaves is
    made of digits, commas and dots, has one dot at most, and has at most two
    digits behind the dot (three for a percentage). *)
Theorem formatValue_shape (name : FieldName) (raw : str) :
  existsb isDigit raw = true ->
  forallb (fun c => isDigit c || (c =? ",")%char || (c =? ".")%char)
    (formatValue name raw) = true
  /\ length (filter (fun c => (c =? ".")%char) (formatValue name raw)) <= 1
  /\ length (afterDot (formatValue name raw)) <= decimalPlacesOf name.
Proof.
  intro H. rewrite formatValue_formattedText.
  unfold formattedText. rewrite H.
  assert (Di : forallb isDigit (intDigits raw) = true)
    by apply forallb_filter.
  assert (Df : forallb isDigit (fracDigits raw) = true)
    by apply forallb_filter.
  set (ip := intDigits raw) in *. set (fp0 := fracDigits raw) in *.
  set (fp := firstn (decimalPlacesOf name) fp0).
  assert (Dfp : forallb isDigit fp = true) by (apply firstn_digits, Df).
  assert (Lfp : length fp <= decimalPlacesOf name)
    by (unfold fp; rewrite length_firstn; lia).
  set (r := if hasDot raw then "."%char :: fp else []).
  pose proof (insertSeparators_digits_commas false ip Di) as Hx.
  destruct (first_dot_behind (insertSeparators false ip) r Hx) as (_ & A & D).
  assert (Ar : afterDot r = (if hasDot raw then fp else [])).
  { unfold r. destruct (hasDot raw); reflexivity. }
  assert (Nd : forall s : str, forallb isDigit s = true ->
                 length (filter (fun c => (c =? ".")%char) s) = 0).
  { induction s as [| c s' IH]; [reflexivity |].
    simpl. intro Hs. apply andb_true_iff in Hs. destruct Hs as [Dc Ds].
    rewrite (isDigit_not_dot c Dc). exact (IH Ds). }
  split; [| split].
  - rewrite forallb_app. apply andb_true_iff. split.
    + revert Hx. apply forallb_weaken.
      intros c Hc. rewrite Hc. reflexivity.
    + unfold r. destruct (hasDot raw); [| reflexivity].
      simpl. revert Dfp. apply forallb_weaken.
      intros c Hc. rewrite Hc. reflexivity.
  - rewrite count_dots, D, A, Ar.
    destruct (hasDot r); [| lia].
    destruct (hasDot raw); [rewrite (Nd fp Dfp) | simpl]; lia.
  - rewrite A, Ar. destruct (hasDot raw); [exact Lfp | simpl; lia].
Qed.

Lemma formatValue_shape_witness :
  forallb (fun c => isDigit c || (c =? ",")%char || (c =? ".")%char)
    (formatValue F_homePrice text_typed) = true
  /\ length (filter (fun c => (c =? ".")%char)
               (formatValue F_homePrice text_typed)) <= 1
  /\ length (afterDot (formatValue F_homePrice text_typed))
     <= decimalPlacesOf F_homePrice.
Proof. apply (formatValue_shape F_homePrice text_typed). reflexivity. Defined.

(** X14. When the text typed has a digit, the number the form registers for
    the text [formatValue] leaves is not negative. *)
Theorem formatValue_registers_nonnegative (name : FieldName) (raw : str) :
  existsb isDigit raw = true ->
  Number.le (Fin 0%R) (setValueAs (Str (formatValue name raw))).
Proof.
  intro H. rewrite formatValue_formattedText.
  rewrite (setValueAs_formattedText name raw H).
  simpl. apply decimalValue_nonnegative.
Qed.

Lemma formatValue_registers_nonnegative_witness :
  Number.le (Fin 0%R)
    (setValueAs (Str (formatValue F_homePrice text_typed))).
Proof.
  apply (formatValue_registers_nonnegative F_homePrice text_typed).
  reflexivity.
Defined.

(** X15. [setValueAs] never returns [NaN], whatever string or number it is
    given. *)
Theorem setValueAs_never_NaN (value : StringOrNumber) :
  setValueAs value <> NaN.
Proof.
  unfold setValueAs, orElse.
  destruct value as [s | n]; simpl.
  - destruct (isEmpty s); simpl; [discriminate |].
    destruct (parseFloat (removeCommas s)) as [x | | |]; simpl;
      try discriminate.
    destruct (Rsign x); discriminate.
  - destruct n as [x | | |]; simpl; try discriminate.
    destruct (Rsign x); simpl; discriminate.
Qed.

(** X16. [setValueAs] gives a text and the same text formatted by
    [formatNumberWithCommas] the same number. *)
Theorem setValueAs_ignores_separators (s : str) :
  setValueAs (Str (formatNumberWithCommas s)) = setValueAs (Str s).
Proof.
  unfold setValueAs, truthy.
  rewrite removeCommas_formatNumberWithCommas.
  destruct s as [| c r]; [reflexivity |].
  destruct (formatNumberWithCommas (c :: r)) as [| c' r'] eqn:E;
    [| reflexivity].
  cbn [isEmpty negb].
  pose proof (removeCommas_formatNumberWithCommas (c :: r)) as K.
  rewrite E in K. rewrite <- K. reflexivity.
Qed.

End PageTextFacts.
